(** * Snake: the game-state transition rules of PEICD100_CPP.cpp

    A shallow embedding of the game logic of [src/PEICD100_CPP.cpp]
    (positions, directions, the free-cell search, [reset_game], the
    input handling and the [update] block of [main]'s loop), followed by
    the properties of the specification that concern them.

    Conventions.
    - A C++ [int] is a [Z] inside [INT_MIN .. INT_MAX]; an arithmetic
      operation whose mathematical result leaves that range is undefined
      behaviour and yields [Undefined].
    - [std::deque<Pos>] is a [list Pos], front of the deque first.
    - The process-wide [std::mt19937] is an oracle [rand_int]: the value the
      [n]-th call of a [uniform_int_distribution<int>(a, b)] returns.  The
      hidden generator state is the number of calls made so far, threaded
      through the monad [M].
    - The unbounded loop of [random_empty_cell] takes a bound on its number
      of iterations; running out of it yields [OutOfFuel]. *)

From Stdlib Require Ascii String DecimalString.
From Stdlib Require Import ZArith List Bool Lia.
Import Ascii.AsciiSyntax String.StringSyntax.
Delimit Scope char_scope with char.
Delimit Scope string_scope with string.
Import ListNotations.
Open Scope Z_scope.

(** ** Outcomes and the generator monad *)

Inductive result (A : Type) : Type :=
| Ok (a : A)
| Undefined
| OutOfFuel.

Arguments Ok {A} a.
Arguments Undefined {A}.
Arguments OutOfFuel {A}.

(** A computation reads and advances the count of draws made so far. *)
Definition M (A : Type) : Type := nat -> result (A * nat).

Definition ret {A} (a : A) : M A := fun n => Ok (a, n).

Definition bind {A B} (c : M A) (k : A -> M B) : M B :=
  fun n =>
    match c n with
    | Ok (a, n') => k a n'
    | Undefined => Undefined
    | OutOfFuel => OutOfFuel
    end.

Definition lift {A} (r : result A) : M A :=
  fun n =>
    match r with
    | Ok a => Ok (a, n)
    | Undefined => Undefined
    | OutOfFuel => OutOfFuel
    end.

Notation "x <- c ;; k" := (bind c (fun x => k))
  (at level 61, c at next level, right associativity).

(** ** Machine integers *)

Definition INT_MIN : Z := -2147483648.
Definition INT_MAX : Z := 2147483647.

Definition in_int (z : Z) : bool := (INT_MIN <=? z) && (z <=? INT_MAX).

Definition int_add (a b : Z) : result Z :=
  if in_int (a + b) then Ok (a + b) else Undefined.

Definition int_sub (a b : Z) : result Z :=
  if in_int (a - b) then Ok (a - b) else Undefined.

(** ** Positions and directions *)

Record Pos : Type := mkPos { x : Z; y : Z }.

(** [operator==] on [Pos]. *)
Definition pos_eq (a b : Pos) : bool := (x a =? x b) && (y a =? y b).

Inductive Dir : Type := Up | Down | Left | Right.

Definition is_opposite (a b : Dir) : bool :=
  match a, b with
  | Up, Down => true
  | Down, Up => true
  | Left, Right => true
  | Right, Left => true
  | _, _ => false
  end.

Definition next_head (head : Pos) (d : Dir) : result Pos :=
  match d with
  | Up => match int_sub (y head) 1 with
          | Ok v => Ok (mkPos (x head) v) | _ => Undefined end
  | Down => match int_add (y head) 1 with
            | Ok v => Ok (mkPos (x head) v) | _ => Undefined end
  | Left => match int_sub (x head) 1 with
            | Ok v => Ok (mkPos v (y head)) | _ => Undefined end
  | Right => match int_add (x head) 1 with
             | Ok v => Ok (mkPos v (y head)) | _ => Undefined end
  end.

(** ** The deque of snake cells *)

Definition push_front (p : Pos) (s : list Pos) : list Pos := p :: s.
Definition push_back (p : Pos) (s : list Pos) : list Pos := s ++ [p].
Definition pop_back (s : list Pos) : list Pos := removelast s.
Arguments pop_back : simpl never.

(** [front()] of an empty deque is undefined behaviour. *)
Definition front (s : list Pos) : result Pos :=
  match s with
  | [] => Undefined
  | c :: _ => Ok c
  end.

Definition contains (snake : list Pos) (p : Pos) : bool :=
  existsb (fun s => pos_eq s p) snake.

(** The self-collision scan of [main]: indices [1 .. size-1]. *)
Definition self_hit (snake : list Pos) (nh : Pos) : bool :=
  existsb (fun s => pos_eq s nh) (skipn 1 snake).

(** ** Game state: the locals of [main] *)

Record Game : Type := mkGame {
  snake : list Pos;
  dir : Dir;
  pending : Dir;
  food : Pos;
  score : Z;
  gameOver : bool
}.

Definition set_snake (g : Game) (s : list Pos) : Game :=
  mkGame s (dir g) (pending g) (food g) (score g) (gameOver g).
Definition set_dir (g : Game) (d : Dir) : Game :=
  mkGame (snake g) d (pending g) (food g) (score g) (gameOver g).
Definition set_pending (g : Game) (d : Dir) : Game :=
  mkGame (snake g) (dir g) d (food g) (score g) (gameOver g).
Definition set_food (g : Game) (f : Pos) : Game :=
  mkGame (snake g) (dir g) (pending g) f (score g) (gameOver g).
Definition set_score (g : Game) (n : Z) : Game :=
  mkGame (snake g) (dir g) (pending g) (food g) n (gameOver g).
Definition set_gameOver (g : Game) (b : bool) : Game :=
  mkGame (snake g) (dir g) (pending g) (food g) (score g) b.

(** The grid of [main]. *)
Definition W : Z := 30.
Definition H : Z := 20.

(** The locals of [main] as initialised before the first [reset_game]. *)
Definition main_init : Game := mkGame [] Right Right (mkPos 0 0) 0 false.

(** The wall test of [main]. *)
Definition hits_wall (w h : Z) (nh : Pos) : bool :=
  (x nh <? 0) || (x nh >=? w) || (y nh <? 0) || (y nh >=? h).

Definition in_grid (w h : Z) (p : Pos) : Prop :=
  0 <= x p < w /\ 0 <= y p < h.

(** The direction the snake moves in this tick: step 1 of the update. *)
Definition committed (g : Game) : Dir :=
  if negb (is_opposite (dir g) (pending g)) then pending g else dir g.

(** What one loop iteration leaves behind: the next state, or [break]. *)
Inductive step : Type :=
| Continue (g : Game)
| Break.

Section Snake.

(** The value returned by the [n]-th call of a
    [uniform_int_distribution<int>(a, b)] on the program's generator. *)
Variable rand_int : nat -> Z -> Z -> Z.

(** One call of a distribution over [a .. b]; [a <= b] is its
    precondition. *)
Definition uniform_int (a b : Z) : M Z :=
  fun n => if a <=? b then Ok (rand_int n a b, S n) else Undefined.

(** The [for (;;)] of [random_empty_cell], over distributions
    [dx(0, bx)] and [dy(0, by)]. *)
Fixpoint sample_loop (fuel : nat) (bx by_ : Z) (snake : list Pos) : M Pos :=
  match fuel with
  | O => fun _ => OutOfFuel
  | S fuel' =>
      px <- uniform_int 0 bx ;;
      py <- uniform_int 0 by_ ;;
      let p := mkPos px py in
      if negb (contains snake p) then ret p
      else sample_loop fuel' bx by_ snake
  end.

Definition random_empty_cell (fuel : nat) (w h : Z) (snake : list Pos)
  : M Pos :=
  bx <- lift (int_sub w 1) ;;
  by_ <- lift (int_sub h 1) ;;
  sample_loop fuel bx by_ snake.

Definition reset_game (fuel : nat) (w h : Z) (g : Game) : M Game :=
  let s0 := @nil Pos in
  let s1 := push_front (mkPos (Z.quot w 2) (Z.quot h 2)) s0 in
  tx <- lift (int_sub (Z.quot w 2) 1) ;;
  let s2 := push_back (mkPos tx (Z.quot h 2)) s1 in
  let d := Right in
  let g1 := mkGame s2 d d (food g) 0 false in
  f <- random_empty_cell fuel w h (snake g1) ;;
  ret (set_food g1 f).

(** The [// update] block of [main]'s loop. *)
Definition update (fuel : nat) (w h : Z) (g : Game) : M Game :=
  if gameOver g then ret g
  else
    let g1 :=
      if negb (is_opposite (dir g) (pending g))
      then set_dir g (pending g) else g in
    hd <- lift (front (snake g1)) ;;
    nh <- lift (next_head hd (dir g1)) ;;
    if hits_wall w h nh then ret (set_gameOver g1 true)
    else
      let g2 := set_snake g1 (push_front nh (snake g1)) in
      let ate := pos_eq nh (food g2) in
      g3 <- (if ate then
               sc <- lift (int_add (score g2) 1) ;;
               f <- random_empty_cell fuel w h (snake g2) ;;
               ret (set_food (set_score g2 sc) f)
             else ret (set_snake g2 (pop_back (snake g2)))) ;;
      ret (if self_hit (snake g3) nh then set_gameOver g3 true else g3).

(** Arrow keys of the Windows console: [224] then a code. *)
Definition arrow (k2 : Z) (g : Game) : Game :=
  let g := if k2 =? 72 then set_pending g Up else g in
  let g := if k2 =? 80 then set_pending g Down else g in
  let g := if k2 =? 75 then set_pending g Left else g in
  let g := if k2 =? 77 then set_pending g Right else g in
  g.

Definition wasd (k : Z) (g : Game) : Game :=
  let g := if (k =? 119) || (k =? 87) then set_pending g Up else g in
  let g := if (k =? 115) || (k =? 83) then set_pending g Down else g in
  let g := if (k =? 97) || (k =? 65) then set_pending g Left else g in
  let g := if (k =? 100) || (k =? 68) then set_pending g Right else g in
  g.

Definition is_quit (k : Z) : bool := (k =? 113) || (k =? 81).
Definition is_restart (k : Z) : bool := (k =? 114) || (k =? 82).

(** The body of [if (key_hit())]: [k] is what [get_key] returned, [k2]
    what a second [get_key] returns (read on Windows after [224]). *)
Definition on_key (win32 : bool) (fuel : nat) (w h : Z) (k k2 : Z)
    (g : Game) : M step :=
  let g1 := if win32 && (k =? 224) then arrow k2 g else g in
  let g2 := wasd k g1 in
  if is_quit k then ret Break
  else if gameOver g2 && is_restart k then
    g3 <- reset_game fuel w h g2 ;; ret (Continue g3)
  else ret (Continue g2).

(** One iteration of [main]'s loop ([draw] and the sleep only write to the
    terminal); [inp = None] when [key_hit] fails. *)
Definition iteration (win32 : bool) (fuel : nat) (w h : Z)
    (inp : option (Z * Z)) (g : Game) : M step :=
  st <- match inp with
        | None => ret (Continue g)
        | Some (k, k2) => on_key win32 fuel w h k k2 g
        end ;;
  match st with
  | Break => ret Break
  | Continue g1 => g2 <- update fuel w h g1 ;; ret (Continue g2)
  end.

(** Several iterations in a row, one input each. *)
Fixpoint run (win32 : bool) (fuel : nat) (w h : Z)
    (inps : list (option (Z * Z))) (g : Game) : M step :=
  match inps with
  | [] => ret (Continue g)
  | inp :: rest =>
      st <- iteration win32 fuel w h inp g ;;
      match st with
      | Break => ret Break
      | Continue g1 => run win32 fuel w h rest g1
      end
  end.

(** States the program passes through: after the first [reset_game], after
    the handling of a key, after an [update]. *)
Inductive reachable (w h : Z) : Game -> nat -> Prop :=
| reach_start fuel n g n' :
    reset_game fuel w h main_init n = Ok (g, n') ->
    reachable w h g n'
| reach_key win32 fuel k k2 g n g' n' :
    reachable w h g n ->
    on_key win32 fuel w h k k2 g n = Ok (Continue g', n') ->
    reachable w h g' n'
| reach_update fuel g n g' n' :
    reachable w h g n ->
    update fuel w h g n = Ok (g', n') ->
    reachable w h g' n'.

(** The three ways a tick of a running game can end. *)
Inductive tick_kind (fuel : nat) (w h : Z) (g : Game) (n : nat)
    (nh : Pos) (g' : Game) (n' : nat) : Prop :=
| tick_wall :
    hits_wall w h nh = true ->
    g' = set_gameOver (set_dir g (committed g)) true -> n' = n ->
    tick_kind fuel w h g n nh g' n'
| tick_move :
    hits_wall w h nh = false -> pos_eq nh (food g) = false ->
    g' = mkGame (pop_back (nh :: snake g)) (committed g) (pending g)
                (food g) (score g)
                (self_hit (pop_back (nh :: snake g)) nh) ->
    n' = n ->
    tick_kind fuel w h g n nh g' n'
| tick_eat f :
    hits_wall w h nh = false -> pos_eq nh (food g) = true ->
    INT_MIN <= score g + 1 <= INT_MAX ->
    random_empty_cell fuel w h (nh :: snake g) n = Ok (f, n') ->
    g' = mkGame (nh :: snake g) (committed g) (pending g) f (score g + 1)
                (self_hit (nh :: snake g) nh) ->
    tick_kind fuel w h g n nh g' n'.

(** The [k]-th cell the search draws when it starts at count [n]. *)
Definition drawn (w h : Z) (n k : nat) : Pos :=
  mkPos (rand_int (2 * k + n) 0 (w - 1))
        (rand_int (S (2 * k + n)) 0 (h - 1)).

(** Every call of a distribution returns a value within its bounds. *)
Definition rand_in_range : Prop :=
  forall n a b, a <= b -> a <= rand_int n a b <= b.

(** From count [n] on, the search draws every cell of the grid at some
    point: the reading of "uniform over the full grid" that a single run
    of the generator allows. *)
Definition draws_every_cell (w h : Z) (n : nat) : Prop :=
  forall c, 0 <= x c < w /\ 0 <= y c < h -> exists k, drawn w h n k = c.

End Snake.

(** ** Sample oracles and states used by the closed examples *)

(** A generator that scans a grid of the given width row by row: the calls
    for [x] (even count) run through the columns, the calls for [y] (odd
    count) advance once per row. *)
Definition scan_rand (width : nat) (n : nat) (a b : Z) : Z :=
  if Nat.even n
  then a + Z.of_nat (Nat.div2 n) mod (b - a + 1)
  else a + Z.of_nat (Nat.div2 n / width) mod (b - a + 1).

(** A generator that returns the lower bound at every call. *)
Definition low_rand (n : nat) (a b : Z) : Z := a.

Definition cell (cx cy : Z) : Pos := mkPos cx cy.

(** The state after a reset on the 30 by 20 grid, food at the origin. *)
Definition start_state : Game :=
  mkGame [cell 15 10; cell 14 10] Right Right (cell 0 0) 0 false.

(** [start_state] one tick later. *)
Definition moved_state : Game :=
  mkGame [cell 16 10; cell 15 10] Right Right (cell 0 0) 0 false.

(** [start_state] with the food right in front of the head. *)
Definition feed_state : Game :=
  mkGame [cell 15 10; cell 14 10] Right Right (cell 16 10) 0 false.

(** [feed_state] one tick later, on a generator that draws the origin. *)
Definition fed_state : Game :=
  mkGame [cell 16 10; cell 15 10; cell 14 10] Right Right (cell 0 0) 1 false.

(** A snake about to run into the right wall. *)
Definition wall_state : Game :=
  mkGame [cell 29 10; cell 28 10] Right Right (cell 0 0) 0 false.

(** A snake of five cells curled around a 2 by 2 block, heading into its
    own body. *)
Definition loop_state : Game :=
  mkGame [cell 5 5; cell 5 6; cell 6 6; cell 6 5; cell 7 5]
         Up Right (cell 0 0) 3 false.

(** A body of four cells whose cell at index 2 lies in front of the head. *)
Definition jump_state : Game :=
  mkGame [cell 5 5; cell 5 6; cell 6 5; cell 7 5] Right Right (cell 0 0) 2
         false.

(** [wall_state] one tick later: a finished game. *)
Definition over_state : Game :=
  mkGame [cell 29 10; cell 28 10] Right Right (cell 0 0) 0 true.

(** [start_state] after the key for [Up], and one tick later. *)
Definition turn_state : Game :=
  mkGame [cell 15 10; cell 14 10] Right Up (cell 0 0) 0 false.
Definition turned_state : Game :=
  mkGame [cell 15 9; cell 15 10] Up Up (cell 0 0) 0 false.

(** [start_state] after the key for [Left], and one tick later. *)
Definition back_state : Game :=
  mkGame [cell 15 10; cell 14 10] Right Left (cell 0 0) 0 false.
Definition backed_state : Game :=
  mkGame [cell 16 10; cell 15 10] Right Left (cell 0 0) 0 false.

(** [loop_state] and [jump_state] one tick later. *)
Definition looped_state : Game :=
  mkGame [cell 6 5; cell 5 5; cell 5 6; cell 6 6; cell 6 5]
         Right Right (cell 0 0) 3 true.
Definition jumped_state : Game :=
  mkGame [cell 6 5; cell 5 5; cell 5 6; cell 6 5] Right Right (cell 0 0) 2
         true.

(** [start_state] after a second reset, on a generator that draws [(1,0)]
    next. *)
Definition restart_state : Game :=
  mkGame [cell 15 10; cell 14 10] Right Right (cell 1 0) 0 false.

(** On a grid of three cells in a row: the state after the reset, whose
    food is the last free cell. *)
Definition last_cell_state : Game :=
  mkGame [cell 1 0; cell 0 0] Right Right (cell 2 0) 0 false.

(** [over_state] after the keys [a] and (on Windows) arrow up. *)
Definition waiting_state : Game :=
  mkGame [cell 29 10; cell 28 10] Right Up (cell 0 0) 0 true.

(** All cells of the [w] by [h] grid ([w], [h] as counts), row by row. *)
Definition grid_cells (w h : nat) : list Pos :=
  flat_map (fun j => map (fun i => cell (Z.of_nat i) (Z.of_nat j)) (seq 0 w))
           (seq 0 h).

(** The key of an iteration's input, if any, asks for a restart / to quit. *)
Definition restart_key (inp : option (Z * Z)) : bool :=
  match inp with
  | Some (k, _) => (k =? 114) || (k =? 82)
  | None => false
  end.

Definition quit_key (inp : option (Z * Z)) : bool :=
  match inp with
  | Some (k, _) => (k =? 113) || (k =? 81)
  | None => false
  end.

(** [g'] shows the same snake, direction, food, score and Game-Over flag as
    [g]. *)
Definition frozen (g g' : Game) : Prop :=
  snake g' = snake g /\ dir g' = dir g /\ food g' = food g /\
  score g' = score g /\ gameOver g' = gameOver g.

(** ** The shape of the snake *)

(** The displacement of one move in a direction, as [next_head] adds it. *)
Definition step_of (d : Dir) : Z * Z :=
  match d with
  | Up => (0, -1)
  | Down => (0, 1)
  | Left => (-1, 0)
  | Right => (1, 0)
  end.

(** Two cells that share a side. *)
Definition adjacent (a b : Pos) : Prop :=
  Z.abs (x a - x b) + Z.abs (y a - y b) = 1.

(** Every cell shares a side with the next one. *)
Fixpoint chain (l : list Pos) : Prop :=
  match l with
  | a :: (b :: _) as t => adjacent a b /\ chain t
  | _ => True
  end.

(** The head lies one move in direction [dir] from the cell behind it. *)
Definition heading (g : Game) : Prop :=
  match snake g with
  | hd :: nk :: _ =>
      x hd = x nk + fst (step_of (dir g)) /\
      y hd = y nk + snd (step_of (dir g))
  | _ => True
  end.

(** The head is on the border of the grid and [d] points out of it. *)
Definition facing_wall (w h : Z) (hd : Pos) (d : Dir) : Prop :=
  match d with
  | Up => y hd = 0
  | Down => y hd = h - 1
  | Left => x hd = 0
  | Right => x hd = w - 1
  end.

(** The number of cells of the grid. *)
Definition cells (w h : Z) : nat := (Z.to_nat w * Z.to_nat h)%nat.

(** The key codes the input handling reacts to. *)
Definition recognized (k : Z) : bool :=
  existsb (Z.eqb k) [119; 87; 115; 83; 97; 65; 100; 68; 113; 81; 114; 82].

(** ** Terminal input of the POSIX build *)

(** [read(STDIN_FILENO, &c, 1)] on the non-blocking raw terminal, whose
    pending bytes are a list: the byte read, if any, and what stays
    pending. *)
Definition read_byte (stdin : list Z) : option Z * list Z :=
  match stdin with
  | [] => (None, [])
  | c :: rest => (Some c, rest)
  end.

Definition key_hit (stdin : list Z) : bool * list Z :=
  match read_byte stdin with
  | (Some _, rest) => (true, rest)
  | (None, rest) => (false, rest)
  end.

Definition get_key (stdin : list Z) : Z * list Z :=
  match read_byte stdin with
  | (Some c, rest) => (c, rest)
  | (None, rest) => (-1, rest)
  end.

(** The reads of one loop iteration: the input of [iteration] and the bytes
    left pending (no second key is read on this build). *)
Definition poll (stdin : list Z) : option (Z * Z) * list Z :=
  let (hit, s1) := key_hit stdin in
  if hit then let (k, s2) := get_key s1 in (Some (k, 0), s2)
  else (None, s1).

(** ** The frame written by [draw] *)

Definition esc : Ascii.ascii := "027"%char.
Definition newline : Ascii.ascii := "010"%char.

Definition text (s : String.string) : list Ascii.ascii :=
  String.list_ascii_of_string s.
Arguments text s%_string.

(** [std::cout << score]: the decimal digits, with a sign when negative. *)
Definition show_int (z : Z) : list Ascii.ascii :=
  text (DecimalString.NilZero.string_of_int (Z.to_int z)).

(** The values of [for (int i = 0; i < n; ++i)]. *)
Definition zrange (n : Z) : list Z := map Z.of_nat (seq 0 (Z.to_nat n)).

Definition rbind {A B} (r : result A) (k : A -> result B) : result B :=
  match r with
  | Ok a => k a
  | Undefined => Undefined
  | OutOfFuel => OutOfFuel
  end.

(** The outcomes of a sequence of steps, up to the first that fails. *)
Fixpoint collect {A} (l : list (result A)) : result (list A) :=
  match l with
  | [] => Ok []
  | r :: rest =>
      rbind r (fun a => rbind (collect rest) (fun t => Ok (a :: t)))
  end.

Definition set_cursor_home : list Ascii.ascii := esc :: text "[H".

(** The character for the cell [p], given the head [hd] of the snake. *)
Definition cell_char (hd : Pos) (snake : list Pos) (food : Pos) (p : Pos)
  : Ascii.ascii :=
  if pos_eq p hd then "O"%char
  else if pos_eq p food then "*"%char
  else if self_hit snake p then "o"%char
  else " "%char.

(** The character [draw] writes for the cell [p]; it takes the [front] of
    the snake. *)
Definition glyph (snake : list Pos) (food : Pos) (p : Pos)
  : result Ascii.ascii :=
  rbind (front snake) (fun hd => Ok (cell_char hd snake food p)).

Definition border (w : Z) : list Ascii.ascii :=
  "+"%char :: repeat "-"%char (Z.to_nat w) ++ ["+"%char; newline].

Definition draw_row (w : Z) (snake : list Pos) (food : Pos) (py : Z)
  : result (list Ascii.ascii) :=
  rbind (collect (map (fun px => glyph snake food (mkPos px py)) (zrange w)))
        (fun cs => Ok ("|"%char :: cs ++ ["|"%char; newline])).

Definition status (score : Z) (gameOver : bool) : list Ascii.ascii :=
  text "Score: " ++ show_int score ++
  text "   (WASD / Arrow keys)  Quit: Q" ++
  (if gameOver then text "   GAME OVER! Press R to restart." else []) ++
  [newline].

Definition draw (w h : Z) (snake : list Pos) (food : Pos) (score : Z)
    (gameOver : bool) : result (list Ascii.ascii) :=
  rbind (collect (map (draw_row w snake food) (zrange h)))
        (fun rows =>
           Ok (set_cursor_home ++ border w ++ concat rows ++ border w ++
               status score gameOver)).

(** The text of a border line and of the grid row [py], without their
    newline. *)
Definition border_text (w : Z) : list Ascii.ascii :=
  "+"%char :: repeat "-"%char (Z.to_nat w) ++ ["+"%char].

Definition row_text (w : Z) (hd : Pos) (snake : list Pos) (food : Pos)
    (py : Z) : list Ascii.ascii :=
  "|"%char :: map (fun px => cell_char hd snake food (mkPos px py)) (zrange w)
    ++ ["|"%char].

(** The text of the status line, without its newline. *)
Definition status_text (score : Z) (gameOver : bool) : list Ascii.ascii :=
  text "Score: " ++ show_int score ++
  text "   (WASD / Arrow keys)  Quit: Q" ++
  (if gameOver then text "   GAME OVER! Press R to restart." else []).

Definition no_newline (t : list Ascii.ascii) : bool :=
  forallb (fun c => negb (Ascii.eqb c newline)) t.

(** The lines of a text: the runs of characters between newlines. *)
Fixpoint split_lines (t : list Ascii.ascii) : list (list Ascii.ascii) :=
  match t with
  | [] => [[]]
  | c :: rest =>
      if Ascii.eqb c newline then [] :: split_lines rest
      else match split_lines rest with
           | [] => [[c]]
           | l :: ls => (c :: l) :: ls
           end
  end.

(** The character at column [cx] of grid row [cy] of a frame. *)
Definition frame_char (out : list Ascii.ascii) (cx cy : Z) : Ascii.ascii :=
  nth (S (Z.to_nat cx)) (nth (S (Z.to_nat cy)) (split_lines out) [])
      " "%char.

(** The frame of [start_state] on the grid of [main]. *)
Definition start_frame : list Ascii.ascii :=
  match draw W H (snake start_state) (food start_state) (score start_state)
             (gameOver start_state) with
  | Ok out => out
  | _ => []
  end.

(** ** Basic facts *)

Lemma pos_eq_true_iff (a b : Pos) : pos_eq a b = true <-> a = b.
Proof.
  destruct a as [ax ay], b as [bx by_]; unfold pos_eq; cbn.
  rewrite andb_true_iff, !Z.eqb_eq. split.
  - intros [-> ->]; reflexivity.
  - intros E; inversion E; auto.
Qed.

Lemma pos_eq_refl (a : Pos) : pos_eq a a = true.
Proof. apply pos_eq_true_iff; reflexivity. Qed.

Lemma pos_eq_false_iff (a b : Pos) : pos_eq a b = false <-> a <> b.
Proof.
  rewrite <- pos_eq_true_iff. destruct (pos_eq a b); split; congruence.
Qed.

Lemma pos_eq_sym (a b : Pos) : pos_eq a b = pos_eq b a.
Proof. unfold pos_eq. rewrite (Z.eqb_sym (x a)), (Z.eqb_sym (y a)); auto. Qed.

Lemma contains_true_iff (s : list Pos) (p : Pos) :
  contains s p = true <-> In p s.
Proof.
  unfold contains. rewrite existsb_exists. split.
  - intros [c [Hin Heq]]. apply pos_eq_true_iff in Heq. subst; assumption.
  - intros Hin. exists p. split; [assumption | apply pos_eq_refl].
Qed.

Lemma contains_false_iff (s : list Pos) (p : Pos) :
  contains s p = false <-> ~ In p s.
Proof.
  rewrite <- contains_true_iff. destruct (contains s p); split; congruence.
Qed.

Lemma self_hit_cons (c : Pos) (s : list Pos) (nh : Pos) :
  self_hit (c :: s) nh = contains s nh.
Proof. reflexivity. Qed.

(** The scan of [main] in terms of indices: some [i] with
    [1 <= i < size] has [snake[i] == nh]. *)
Lemma self_hit_index (s : list Pos) (nh : Pos) :
  self_hit s nh = true <->
  exists i, (1 <= i < length s)%nat /\ nth_error s i = Some nh.
Proof.
  destruct s as [|c s].
  - cbn. split; [discriminate | intros [i [Hi _]]; cbn in Hi; lia].
  - rewrite self_hit_cons, contains_true_iff. split.
    + intros Hin. apply In_nth_error in Hin. destruct Hin as [i Hi].
      exists (S i). split; [| exact Hi].
      cbn. assert (i < length s)%nat by (apply nth_error_Some; congruence). lia.
    + intros [i [Hi Hn]]. destruct i as [|i]; [lia|].
      cbn in Hn. eapply nth_error_In; eauto.
Qed.

Lemma in_int_true (z : Z) : in_int z = true <-> INT_MIN <= z <= INT_MAX.
Proof. unfold in_int. rewrite andb_true_iff, !Z.leb_le. tauto. Qed.

Lemma int_add_ok (a b v : Z) :
  int_add a b = Ok v <-> v = a + b /\ INT_MIN <= a + b <= INT_MAX.
Proof.
  unfold int_add. destruct (in_int (a + b)) eqn:E.
  - apply in_int_true in E. split; [intros [= <-] | intros [-> _]]; auto.
  - split; [discriminate|]. intros [_ Hr]. apply in_int_true in Hr. congruence.
Qed.

Lemma int_sub_ok (a b v : Z) :
  int_sub a b = Ok v <-> v = a - b /\ INT_MIN <= a - b <= INT_MAX.
Proof.
  unfold int_sub. destruct (in_int (a - b)) eqn:E.
  - apply in_int_true in E. split; [intros [= <-] | intros [-> _]]; auto.
  - split; [discriminate|]. intros [_ Hr]. apply in_int_true in Hr. congruence.
Qed.

Lemma bind_ok {A B} (c : M A) (k : A -> M B) (n : nat) (b : B) (n' : nat) :
  bind c k n = Ok (b, n') <->
  exists a m, c n = Ok (a, m) /\ k a m = Ok (b, n').
Proof.
  unfold bind. destruct (c n) as [[a m]| |].
  - split; [eauto|]. intros [a' [m' [[= <- <-] Hk]]]. exact Hk.
  - split; [discriminate | intros [? [? [? _]]]; discriminate].
  - split; [discriminate | intros [? [? [? _]]]; discriminate].
Qed.

Lemma lift_ok {A} (r : result A) (n : nat) (a : A) (n' : nat) :
  lift r n = Ok (a, n') <-> r = Ok a /\ n' = n.
Proof.
  unfold lift. destruct r; split; try discriminate.
  - intros [= -> ->]; auto.
  - intros [[= ->] ->]; auto.
  - intros [? _]; discriminate.
  - intros [? _]; discriminate.
Qed.

Lemma ret_ok {A} (a : A) (n : nat) (b : A) (n' : nat) :
  ret a n = Ok (b, n') <-> b = a /\ n' = n.
Proof. unfold ret. split; [intros [= -> ->] | intros [-> ->]]; auto. Qed.

(** Splits a successful run of a monadic block into its successful parts. *)
Ltac monad_inv :=
  repeat match goal with
    | Hb : bind _ _ _ = Ok (_, _) |- _ =>
        apply bind_ok in Hb; destruct Hb as (? & ? & ? & Hb)
    | Hb : lift _ _ = Ok (_, _) |- _ =>
        apply lift_ok in Hb; destruct Hb as [Hb ?]; subst
    | Hb : ret _ _ = Ok (_, _) |- _ =>
        apply ret_ok in Hb; destruct Hb as [? ?]; subst
    end.

Lemma hits_wall_false (w h : Z) (p : Pos) :
  hits_wall w h p = false <-> in_grid w h p.
Proof.
  unfold hits_wall, in_grid. rewrite !orb_false_iff, !Z.ltb_ge, !Z.geb_leb.
  rewrite !Z.leb_gt. lia.
Qed.

Lemma hits_wall_true (w h : Z) (p : Pos) :
  hits_wall w h p = true <-> ~ in_grid w h p.
Proof.
  rewrite <- hits_wall_false. destruct (hits_wall w h p); split; congruence.
Qed.

(** The least index at which a boolean sequence is false. *)
Lemma first_false (P : nat -> bool) (k : nat) :
  P k = false ->
  exists k0, (k0 <= k)%nat /\ P k0 = false /\
             forall j, (j < k0)%nat -> P j = true.
Proof.
  induction k as [k IH] using lt_wf_ind. intros Hk.
  destruct (forallb P (seq 0 k)) eqn:E.
  - exists k. split; [lia|]. split; [assumption|]. intros j Hj.
    rewrite forallb_forall in E. apply E. apply in_seq. lia.
  - assert (exists j, (j < k)%nat /\ P j = false) as [j [Hj Pj]].
    { destruct (existsb (fun i => negb (P i)) (seq 0 k)) eqn:E2.
      - apply existsb_exists in E2. destruct E2 as [j [Hin Hn]].
        apply in_seq in Hin. exists j. split; [lia|].
        destruct (P j); [discriminate | reflexivity].
      - exfalso. assert (forallb P (seq 0 k) = true); [|congruence].
        apply forallb_forall. intros i Hi.
        destruct (P i) eqn:Pi; [reflexivity|].
        assert (existsb (fun i => negb (P i)) (seq 0 k) = true); [|congruence].
        apply existsb_exists. exists i. rewrite Pi. auto. }
    destruct (IH j Hj Pj) as [k0 [Hle [Pk0 Hall]]].
    exists k0. split; [lia|]. auto.
Qed.

(** ** The free-cell search *)

Section Search.

Variable rand_int : nat -> Z -> Z -> Z.

Lemma drawn_shift (w h : Z) (n k : nat) :
  drawn rand_int w h (S (S n)) k = drawn rand_int w h n (S k).
Proof.
  unfold drawn. replace (2 * S k + n)%nat with (2 * k + S (S n))%nat by lia.
  reflexivity.
Qed.

(** One turn of the loop, for bounds that satisfy the distributions'
    precondition. *)
Lemma sample_loop_step (fuel : nat) (w h : Z) (s : list Pos) (n : nat) :
  1 <= w -> 1 <= h ->
  sample_loop rand_int (S fuel) (w - 1) (h - 1) s n =
  if contains s (drawn rand_int w h n 0)
  then sample_loop rand_int fuel (w - 1) (h - 1) s (S (S n))
  else Ok (drawn rand_int w h n 0, S (S n)).
Proof.
  intros Hw Hh. cbn [sample_loop]. unfold bind, uniform_int.
  assert ((0 <=? w - 1) = true) as -> by (apply Z.leb_le; lia).
  assert ((0 <=? h - 1) = true) as -> by (apply Z.leb_le; lia).
  unfold drawn; cbn [Nat.mul Nat.add].
  destruct (contains s _); reflexivity.
Qed.

Lemma sample_loop_bad_bounds (fuel : nat) (bx by_ : Z) (s : list Pos)
    (n : nat) (p : Pos) (n' : nat) :
  sample_loop rand_int fuel bx by_ s n = Ok (p, n') -> 0 <= bx /\ 0 <= by_.
Proof.
  destruct fuel as [|fuel]; [discriminate|].
  cbn [sample_loop]. unfold bind, uniform_int.
  destruct (0 <=? bx) eqn:Ex; [|discriminate].
  destruct (0 <=? by_) eqn:Ey; [|discriminate].
  apply Z.leb_le in Ex, Ey. auto.
Qed.

(** With enough turns the loop returns the first drawn cell that is not
    on the snake, and with fewer it is still running. *)
Lemma sample_loop_first (w h : Z) (s : list Pos) (k : nat) :
  1 <= w -> 1 <= h ->
  forall fuel n,
    (forall j, (j < k)%nat -> contains s (drawn rand_int w h n j) = true) ->
    contains s (drawn rand_int w h n k) = false ->
    sample_loop rand_int fuel (w - 1) (h - 1) s n =
    if (k <? fuel)%nat
    then Ok (drawn rand_int w h n k, (2 * S k + n)%nat)
    else OutOfFuel.
Proof.
  intros Hw Hh. induction k as [|k IH]; intros fuel n Hbefore Hfree.
  - destruct fuel as [|fuel]; [reflexivity|].
    rewrite sample_loop_step, Hfree by assumption. reflexivity.
  - destruct fuel as [|fuel]; [reflexivity|].
    rewrite sample_loop_step by assumption.
    rewrite (Hbefore 0%nat) by lia.
    rewrite IH.
    + rewrite drawn_shift.
      replace (2 * S k + S (S n))%nat with (2 * S (S k) + n)%nat by lia.
      reflexivity.
    + intros j Hj. rewrite drawn_shift. apply Hbefore. lia.
    + rewrite drawn_shift. exact Hfree.
Qed.

(** When every draw lands on the snake the loop never returns. *)
Lemma sample_loop_full (w h : Z) (s : list Pos) :
  1 <= w -> 1 <= h ->
  forall fuel n,
    (forall k, contains s (drawn rand_int w h n k) = true) ->
    sample_loop rand_int fuel (w - 1) (h - 1) s n = OutOfFuel.
Proof.
  intros Hw Hh. induction fuel as [|fuel IH]; intros n Hall; [reflexivity|].
  rewrite sample_loop_step, (Hall 0%nat) by assumption.
  apply IH. intros k. rewrite drawn_shift. apply Hall.
Qed.

(** Whatever the loop returns is a drawn cell that is not on the snake,
    and all cells drawn before it are on the snake. *)
Lemma sample_loop_sound (w h : Z) (s : list Pos) :
  forall fuel n p n',
    sample_loop rand_int fuel (w - 1) (h - 1) s n = Ok (p, n') ->
    exists k, (k < fuel)%nat /\ p = drawn rand_int w h n k /\
              n' = (2 * S k + n)%nat /\ contains s p = false /\
              forall j, (j < k)%nat ->
                        contains s (drawn rand_int w h n j) = true.
Proof.
  induction fuel as [|fuel IH]; intros n p n' Hrun; [discriminate|].
  pose proof (sample_loop_bad_bounds _ _ _ _ _ _ _ Hrun) as [Hw Hh].
  rewrite sample_loop_step in Hrun by lia.
  destruct (contains s (drawn rand_int w h n 0)) eqn:E.
  - apply IH in Hrun. destruct Hrun as (k & Hk & -> & -> & Hfree & Hbefore).
    exists (S k). rewrite drawn_shift in *.
    repeat split; try assumption; try lia.
    intros j Hj. destruct j as [|j]; [exact E|].
    rewrite <- drawn_shift. apply Hbefore. lia.
  - injection Hrun as <- <-. exists 0%nat.
    repeat split; try assumption; try lia.
Qed.

Lemma random_empty_cell_unfold (fuel : nat) (w h : Z) (s : list Pos)
    (n : nat) :
  INT_MIN < w <= INT_MAX -> INT_MIN < h <= INT_MAX ->
  random_empty_cell rand_int fuel w h s n =
  sample_loop rand_int fuel (w - 1) (h - 1) s n.
Proof.
  intros Hw Hh. unfold random_empty_cell, bind, lift, int_sub.
  assert (in_int (w - 1) = true) as ->
      by (apply in_int_true; unfold INT_MIN, INT_MAX in *; lia).
  assert (in_int (h - 1) = true) as ->
      by (apply in_int_true; unfold INT_MIN, INT_MAX in *; lia).
  reflexivity.
Qed.

Lemma random_empty_cell_ok (fuel : nat) (w h : Z) (s : list Pos)
    (n : nat) (p : Pos) (n' : nat) :
  random_empty_cell rand_int fuel w h s n = Ok (p, n') ->
  sample_loop rand_int fuel (w - 1) (h - 1) s n = Ok (p, n') /\
  1 <= w /\ 1 <= h.
Proof.
  unfold random_empty_cell. intros Hrun.
  apply bind_ok in Hrun. destruct Hrun as (bx & m1 & Hbx & Hrun).
  apply bind_ok in Hrun. destruct Hrun as (by_ & m2 & Hby & Hrun).
  apply lift_ok in Hbx, Hby. destruct Hbx as [Hbx ->], Hby as [Hby ->].
  apply int_sub_ok in Hbx, Hby. destruct Hbx as [-> _], Hby as [-> _].
  split; [assumption|].
  apply sample_loop_bad_bounds in Hrun. lia.
Qed.

(** The cell the search returns is not on the snake. *)
Lemma random_empty_cell_free (fuel : nat) (w h : Z) (s : list Pos)
    (n : nat) (p : Pos) (n' : nat) :
  random_empty_cell rand_int fuel w h s n = Ok (p, n') ->
  contains s p = false.
Proof.
  intros Hrun. apply random_empty_cell_ok in Hrun. destruct Hrun as [Hrun _].
  apply sample_loop_sound in Hrun. destruct Hrun as (k & _ & _ & _ & Hf & _).
  exact Hf.
Qed.

Lemma drawn_in_grid (w h : Z) (n k : nat) :
  rand_in_range rand_int -> 1 <= w -> 1 <= h ->
  in_grid w h (drawn rand_int w h n k).
Proof.
  intros Hr Hw Hh. unfold in_grid, drawn; cbn [x y].
  pose proof (Hr (2 * k + n)%nat 0 (w - 1)).
  pose proof (Hr (S (2 * k + n)) 0 (h - 1)). lia.
Qed.

(** The cell the search returns lies in the grid. *)
Lemma random_empty_cell_in_grid (fuel : nat) (w h : Z) (s : list Pos)
    (n : nat) (p : Pos) (n' : nat) :
  rand_in_range rand_int ->
  random_empty_cell rand_int fuel w h s n = Ok (p, n') ->
  in_grid w h p.
Proof.
  intros Hr Hrun. apply random_empty_cell_ok in Hrun.
  destruct Hrun as (Hrun & Hw & Hh).
  apply sample_loop_sound in Hrun. destruct Hrun as (k & _ & -> & _).
  apply drawn_in_grid; assumption.
Qed.

(** On a generator that draws every cell, the search over a snake that
    leaves a grid cell free returns the first drawn free cell. *)
Lemma search_returns_first (w h : Z) (s : list Pos) (n : nat) :
  1 <= w <= INT_MAX -> 1 <= h <= INT_MAX ->
  (exists c, in_grid w h c /\ ~ In c s) ->
  draws_every_cell rand_int w h n ->
  exists k,
    contains s (drawn rand_int w h n k) = false /\
    (forall j, (j < k)%nat ->
               contains s (drawn rand_int w h n j) = true) /\
    forall fuel,
      random_empty_cell rand_int fuel w h s n =
      if (k <? fuel)%nat
      then Ok (drawn rand_int w h n k, (2 * S k + n)%nat)
      else OutOfFuel.
Proof.
  intros Hw Hh (c & Hin & Hfree) Hfair.
  assert (INT_MIN < w <= INT_MAX /\ INT_MIN < h <= INT_MAX) as [Hw' Hh']
      by (unfold INT_MIN, INT_MAX in *; lia).
  destruct (Hfair c Hin) as [k1 Hk1].
  assert (contains s (drawn rand_int w h n k1) = false) as Hk1free
      by (rewrite Hk1; apply contains_false_iff; exact Hfree).
  destruct (first_false (fun k => contains s (drawn rand_int w h n k))
                        k1 Hk1free) as (k & _ & Hk & Hbefore).
  exists k. split; [exact Hk|]. split; [exact Hbefore|].
  intros fuel. rewrite random_empty_cell_unfold by assumption.
  apply sample_loop_first; try assumption; lia.
Qed.

(** Over a snake that occupies every grid cell the search is still
    running after any number of turns. *)
Lemma search_never_returns (w h : Z) (s : list Pos) (n : nat) :
  1 <= w <= INT_MAX -> 1 <= h <= INT_MAX ->
  rand_in_range rand_int ->
  (forall c, in_grid w h c -> In c s) ->
  forall fuel, random_empty_cell rand_int fuel w h s n = OutOfFuel.
Proof.
  intros Hw Hh Hrange Hfull fuel.
  assert (INT_MIN < w <= INT_MAX /\ INT_MIN < h <= INT_MAX) as [Hw' Hh']
      by (unfold INT_MIN, INT_MAX in *; lia).
  rewrite random_empty_cell_unfold by assumption.
  apply sample_loop_full; try lia.
  intros k. apply contains_true_iff, Hfull.
  apply drawn_in_grid; try assumption; lia.
Qed.

End Search.

(** ** One tick *)

Section Tick.

Variable rand_int : nat -> Z -> Z -> Z.

Lemma set_dir_committed (g : Game) :
  (if negb (is_opposite (dir g) (pending g))
   then set_dir g (pending g) else g) = set_dir g (committed g).
Proof.
  unfold committed. destruct g as [s d pd f sc go]; cbn.
  destruct (is_opposite d pd); reflexivity.
Qed.

(** A tick in the Game-Over state does nothing. *)
Lemma update_over (fuel : nat) (w h : Z) (g : Game) (n : nat) :
  gameOver g = true -> update rand_int fuel w h g n = Ok (g, n).
Proof. intros Hgo. unfold update. rewrite Hgo. reflexivity. Qed.

(** A tick whose new head leaves the grid. *)
Lemma update_wall (fuel : nat) (w h : Z) (g : Game) (n : nat)
    (hd nh : Pos) (rest : list Pos) :
  gameOver g = false -> snake g = hd :: rest ->
  next_head hd (committed g) = Ok nh -> hits_wall w h nh = true ->
  update rand_int fuel w h g n =
  Ok (set_gameOver (set_dir g (committed g)) true, n).
Proof.
  intros Hgo Hs Hnh Hwall. unfold update. rewrite Hgo, set_dir_committed.
  cbn [snake dir set_dir]. rewrite Hs. unfold bind, lift at 1. cbn [front].
  unfold lift. rewrite Hnh, Hwall. reflexivity.
Qed.

(** A tick that moves the snake without eating. *)
Lemma update_move (fuel : nat) (w h : Z) (g : Game) (n : nat)
    (hd nh : Pos) (rest : list Pos) :
  gameOver g = false -> snake g = hd :: rest ->
  next_head hd (committed g) = Ok nh -> hits_wall w h nh = false ->
  pos_eq nh (food g) = false ->
  update rand_int fuel w h g n =
  Ok (mkGame (pop_back (nh :: snake g)) (committed g) (pending g) (food g)
             (score g)
             (self_hit (pop_back (nh :: snake g)) nh), n).
Proof.
  intros Hgo Hs Hnh Hwall Hfood. unfold update.
  rewrite Hgo, set_dir_committed.
  cbn [snake dir food set_dir set_snake]. rewrite Hs.
  unfold bind, lift at 1. cbn [front].
  unfold lift. rewrite Hnh, Hwall, Hfood. unfold ret, push_front.
  cbn [snake set_snake].
  destruct (self_hit (pop_back (nh :: hd :: rest)) nh) eqn:E;
    unfold set_gameOver, set_snake, set_dir; cbn; rewrite ?Hgo; reflexivity.
Qed.

(** A tick that eats: the score is incremented, then the search runs on
    the grown snake, then the body is scanned for the new head. *)
Lemma update_eat (fuel : nat) (w h : Z) (g : Game) (n : nat)
    (hd nh : Pos) (rest : list Pos) :
  gameOver g = false -> snake g = hd :: rest ->
  next_head hd (committed g) = Ok nh -> hits_wall w h nh = false ->
  pos_eq nh (food g) = true ->
  update rand_int fuel w h g n =
  match int_add (score g) 1 with
  | Ok sc =>
      match random_empty_cell rand_int fuel w h (nh :: snake g) n with
      | Ok (f, n') =>
          Ok (mkGame (nh :: snake g) (committed g) (pending g) f sc
                     (self_hit (nh :: snake g) nh), n')
      | Undefined => Undefined
      | OutOfFuel => OutOfFuel
      end
  | Undefined => Undefined
  | OutOfFuel => OutOfFuel
  end.
Proof.
  intros Hgo Hs Hnh Hwall Hfood. unfold update.
  rewrite Hgo, set_dir_committed.
  cbn [snake dir food score set_dir set_snake]. rewrite Hs.
  unfold bind at 1, lift at 1. cbn [front].
  unfold bind at 1, lift at 1. rewrite Hnh, Hwall, Hfood.
  unfold bind at 1. unfold bind at 1, lift at 1.
  destruct (int_add (score g) 1) as [sc| |]; try reflexivity.
  unfold bind, push_front.
  destruct (random_empty_cell rand_int fuel w h (nh :: hd :: rest) n)
    as [[f n']| |]; try reflexivity.
  unfold ret. cbn [snake set_food set_score set_snake].
  destruct (self_hit (nh :: hd :: rest) nh) eqn:E;
    unfold set_gameOver, set_food, set_score, set_snake, set_dir; cbn;
    rewrite ?Hgo; reflexivity.
Qed.

Lemma update_running (fuel : nat) (w h : Z) (g : Game) (n : nat)
    (g' : Game) (n' : nat) :
  gameOver g = false ->
  update rand_int fuel w h g n = Ok (g', n') ->
  exists hd rest nh,
    snake g = hd :: rest /\ next_head hd (committed g) = Ok nh /\
    tick_kind rand_int fuel w h g n nh g' n'.
Proof.
  intros Hgo Hrun.
  destruct (snake g) as [|hd rest] eqn:Hs.
  { unfold update in Hrun. rewrite Hgo, set_dir_committed in Hrun.
    cbn [snake set_dir] in Hrun. rewrite Hs in Hrun. discriminate. }
  destruct (next_head hd (committed g)) as [nh| |] eqn:Hnh.
  2,3: unfold update in Hrun; rewrite Hgo, set_dir_committed in Hrun;
       cbn [snake dir set_dir] in Hrun; rewrite Hs in Hrun;
       unfold bind, lift in Hrun; cbn [front] in Hrun;
       rewrite Hnh in Hrun; discriminate.
  exists hd, rest, nh. split; [reflexivity|]. split; [exact Hnh|].
  destruct (hits_wall w h nh) eqn:Hwall.
  - rewrite (update_wall _ _ _ _ _ _ _ _ Hgo Hs Hnh Hwall) in Hrun.
    injection Hrun as <- <-. apply tick_wall; auto.
  - destruct (pos_eq nh (food g)) eqn:Hfood.
    + rewrite (update_eat _ _ _ _ _ _ _ _ Hgo Hs Hnh Hwall Hfood) in Hrun.
      destruct (int_add (score g) 1) as [sc| |] eqn:Hsc; try discriminate.
      apply int_add_ok in Hsc. destruct Hsc as [-> Hrange].
      rewrite Hs in Hrun.
      destruct (random_empty_cell rand_int fuel w h (nh :: hd :: rest) n)
        as [[f m]| |] eqn:Hf; try discriminate.
      injection Hrun as <- <-. rewrite <- Hs in *.
      eapply tick_eat; eauto.
    + rewrite (update_move _ _ _ _ _ _ _ _ Hgo Hs Hnh Hwall Hfood) in Hrun.
      injection Hrun as <- <-. apply tick_move; auto.
Qed.

End Tick.

(** ** Facts about [pop_back] *)

Lemma pop_back_cons (c d : Pos) (s : list Pos) :
  pop_back (c :: d :: s) = c :: pop_back (d :: s).
Proof. reflexivity. Qed.

Lemma pop_back_length (c : Pos) (s : list Pos) :
  length (pop_back (c :: s)) = length s.
Proof.
  revert c. induction s as [|d s IH]; intros c; [reflexivity|].
  rewrite pop_back_cons. cbn [length]. rewrite IH. reflexivity.
Qed.

Lemma pop_back_In (p : Pos) (s : list Pos) : In p (pop_back s) -> In p s.
Proof.
  induction s as [|c s IH]; [auto|].
  destruct s as [|d s]; [intros []|].
  rewrite pop_back_cons. intros [->|Hin]; [left; reflexivity|].
  right. apply IH. exact Hin.
Qed.

Lemma pop_back_nth_error (s : list Pos) (i : nat) :
  (S i < length s)%nat -> nth_error (pop_back s) i = nth_error s i.
Proof.
  revert i. induction s as [|c s IH]; intros i Hi; [cbn in Hi; lia|].
  destruct s as [|d s]; [cbn in Hi; lia|].
  rewrite pop_back_cons. destruct i as [|i]; [reflexivity|].
  cbn [nth_error]. apply IH. cbn [length] in *. lia.
Qed.

(** ** The properties of the tick *)

Section TickProperties.

Variable rand_int : nat -> Z -> Z -> Z.

(** C1. A tick of a running game commits the pending direction: when
    [pending] is not the opposite of [dir], [dir] after the tick is the
    pending direction of before the tick; when it is the opposite, [dir]
    is unchanged. *)
Theorem tick_commits_direction (fuel : nat) (w h : Z) (g : Game) (n : nat)
    (g' : Game) (n' : nat) :
  gameOver g = false ->
  update rand_int fuel w h g n = Ok (g', n') ->
  (is_opposite (dir g) (pending g) = false -> dir g' = pending g) /\
  (is_opposite (dir g) (pending g) = true -> dir g' = dir g).
Proof.
  intros Hgo Hrun.
  destruct (update_running _ _ _ _ _ _ _ _ Hgo Hrun)
    as (hd & rest & nh & _ & _ & Hkind).
  assert (dir g' = committed g) as ->
      by (destruct Hkind; subst g'; reflexivity).
  unfold committed. split; intros ->; reflexivity.
Qed.

(** C2. A tick of a running game whose new head lies outside the grid sets
    Game-Over and changes nothing else besides the committed direction:
    snake, pending direction, food, score and generator are as before.
    Instance: a head at [(w-1, y)] moving [Right]. *)
Theorem tick_wall_collision (fuel : nat) (w h : Z) (g : Game) (n : nat) :
  gameOver g = false ->
  (forall hd rest nh,
      snake g = hd :: rest -> next_head hd (committed g) = Ok nh ->
      ~ in_grid w h nh ->
      update rand_int fuel w h g n =
      Ok (mkGame (snake g) (committed g) (pending g) (food g) (score g)
                 true, n)) /\
  (forall py rest,
      INT_MIN <= w <= INT_MAX ->
      snake g = mkPos (w - 1) py :: rest -> committed g = Right ->
      update rand_int fuel w h g n =
      Ok (mkGame (snake g) (committed g) (pending g) (food g) (score g)
                 true, n)).
Proof.
  intros Hgo.
  assert (forall hd rest nh,
      snake g = hd :: rest -> next_head hd (committed g) = Ok nh ->
      ~ in_grid w h nh ->
      update rand_int fuel w h g n =
      Ok (mkGame (snake g) (committed g) (pending g) (food g) (score g)
                 true, n)) as Hwall.
  { intros hd rest nh Hs Hnh Hout. apply hits_wall_true in Hout.
    rewrite (update_wall _ _ _ _ _ _ _ _ _ Hgo Hs Hnh Hout). reflexivity. }
  split; [exact Hwall|].
  intros py rest Hw Hs Hright.
  apply (Hwall (mkPos (w - 1) py) rest (mkPos w py) Hs).
  - rewrite Hright. unfold next_head, int_add; cbn [x y].
    replace (w - 1 + 1) with w by lia.
    apply in_int_true in Hw. rewrite Hw. reflexivity.
  - unfold in_grid; cbn [x y]. lia.
Qed.

(** C3. A tick of a running game whose new head stays inside the grid
    keeps the length and the score when the new head is not the food, and
    adds one to each when it is. *)
Theorem tick_length_and_score (fuel : nat) (w h : Z) (g : Game) (n : nat)
    (hd nh : Pos) (rest : list Pos) (g' : Game) (n' : nat) :
  gameOver g = false ->
  snake g = hd :: rest -> next_head hd (committed g) = Ok nh ->
  in_grid w h nh ->
  update rand_int fuel w h g n = Ok (g', n') ->
  (nh <> food g ->
   length (snake g') = length (snake g) /\ score g' = score g) /\
  (nh = food g ->
   length (snake g') = S (length (snake g)) /\ score g' = score g + 1).
Proof.
  intros Hgo Hs Hnh Hin Hrun. apply hits_wall_false in Hin.
  split; intros Hfood.
  - apply pos_eq_false_iff in Hfood.
    rewrite (update_move _ _ _ _ _ _ _ _ _ Hgo Hs Hnh Hin Hfood) in Hrun.
    injection Hrun as <- <-. cbn [snake score].
    rewrite pop_back_length. auto.
  - apply pos_eq_true_iff in Hfood.
    rewrite (update_eat _ _ _ _ _ _ _ _ _ Hgo Hs Hnh Hin Hfood) in Hrun.
    destruct (int_add (score g) 1) as [sc| |] eqn:Hsc; try discriminate.
    apply int_add_ok in Hsc. destruct Hsc as [-> _].
    destruct (random_empty_cell rand_int fuel w h (nh :: snake g) n)
      as [[f m]| |]; try discriminate.
    injection Hrun as <- <-. cbn [snake score length]. auto.
Qed.

(** C4. A tick of a running game whose new head stays inside the grid ends
    with Game-Over set exactly when the new head equals a cell of the
    final body at an index from 1 on (index 0 is the new head itself).
    Instance: with at least 4 cells before the tick, a new head equal to
    the cell at index 2 sets Game-Over. *)
Theorem tick_self_collision (fuel : nat) (w h : Z) (g : Game) (n : nat)
    (hd nh : Pos) (rest : list Pos) (g' : Game) (n' : nat) :
  gameOver g = false ->
  snake g = hd :: rest -> next_head hd (committed g) = Ok nh ->
  in_grid w h nh ->
  update rand_int fuel w h g n = Ok (g', n') ->
  nth_error (snake g') 0 = Some nh /\
  (gameOver g' = true <->
   exists i, (1 <= i < length (snake g'))%nat /\
             nth_error (snake g') i = Some nh) /\
  ((4 <= length (snake g))%nat -> nth_error (snake g) 2 = Some nh ->
   gameOver g' = true).
Proof.
  intros Hgo Hs Hnh Hin Hrun. apply hits_wall_false in Hin.
  assert (snake g' = nh :: tl (snake g') /\
          gameOver g' = self_hit (snake g') nh /\
          (snake g' = nh :: snake g \/
           snake g' = nh :: pop_back (snake g))) as (Hhead & Hflag & Hbody).
  { destruct (pos_eq nh (food g)) eqn:Hfood.
    - rewrite (update_eat _ _ _ _ _ _ _ _ _ Hgo Hs Hnh Hin Hfood) in Hrun.
      destruct (int_add (score g) 1) as [sc| |]; try discriminate.
      destruct (random_empty_cell rand_int fuel w h (nh :: snake g) n)
        as [[f m]| |]; try discriminate.
      injection Hrun as <- <-. cbn [snake gameOver tl]. auto.
    - rewrite (update_move _ _ _ _ _ _ _ _ _ Hgo Hs Hnh Hin Hfood) in Hrun.
      injection Hrun as <- <-. cbn [snake gameOver].
      rewrite Hs, pop_back_cons. cbn [tl]. auto. }
  split; [rewrite Hhead; reflexivity|].
  split; [rewrite Hflag; apply self_hit_index|].
  intros Hlen Hidx. rewrite Hflag.
  destruct Hbody as [-> | ->]; rewrite self_hit_cons; apply contains_true_iff.
  - eapply nth_error_In; exact Hidx.
  - eapply nth_error_In. rewrite pop_back_nth_error; [exact Hidx | lia].
Qed.

(** C10. An eating tick of a running game in which the food is not on the
    snake never ends in Game-Over: the cells behind the new head are the
    cells of before the tick, none of which is the food cell. *)
Theorem eating_tick_never_collides (fuel : nat) (w h : Z) (g : Game)
    (n : nat) (hd nh : Pos) (rest : list Pos) (g' : Game) (n' : nat) :
  gameOver g = false ->
  contains (snake g) (food g) = false ->
  snake g = hd :: rest -> next_head hd (committed g) = Ok nh ->
  in_grid w h nh ->
  nh = food g ->
  update rand_int fuel w h g n = Ok (g', n') ->
  gameOver g' = false.
Proof.
  intros Hgo Hinv Hs Hnh Hin Hfood Hrun. apply hits_wall_false in Hin.
  pose proof Hfood as Heq. apply pos_eq_true_iff in Heq.
  rewrite (update_eat _ _ _ _ _ _ _ _ _ Hgo Hs Hnh Hin Heq) in Hrun.
  destruct (int_add (score g) 1) as [sc| |]; try discriminate.
  destruct (random_empty_cell rand_int fuel w h (nh :: snake g) n)
    as [[f m]| |]; try discriminate.
  injection Hrun as <- <-. cbn [gameOver].
  rewrite self_hit_cons, Hfood. exact Hinv.
Qed.

End TickProperties.

(** ** Reset, key handling and the states of a run *)

Section Reset.

Variable rand_int : nat -> Z -> Z -> Z.

Lemma reset_game_ok (fuel : nat) (w h : Z) (g : Game) (n : nat)
    (g' : Game) (n' : nat) :
  reset_game rand_int fuel w h g n = Ok (g', n') ->
  exists f,
    random_empty_cell rand_int fuel w h
      [mkPos (Z.quot w 2) (Z.quot h 2); mkPos (Z.quot w 2 - 1) (Z.quot h 2)]
      n = Ok (f, n') /\
    g' = mkGame [mkPos (Z.quot w 2) (Z.quot h 2);
                 mkPos (Z.quot w 2 - 1) (Z.quot h 2)]
                Right Right f 0 false.
Proof.
  unfold reset_game. intros Hrun.
  apply bind_ok in Hrun. destruct Hrun as (tx & m1 & Htx & Hrun).
  apply lift_ok in Htx. destruct Htx as [Htx ->].
  apply int_sub_ok in Htx. destruct Htx as [-> _].
  apply bind_ok in Hrun. destruct Hrun as (f & m2 & Hf & Hrun).
  apply ret_ok in Hrun. destruct Hrun as [-> ->].
  cbn [snake push_back push_front app] in Hf. eauto.
Qed.

Lemma wasd_frozen (k : Z) (g : Game) : frozen g (wasd k g).
Proof.
  unfold wasd, frozen.
  repeat match goal with |- context [if ?b then _ else _] => destruct b end;
    cbn; auto.
Qed.

Lemma arrow_frozen (k2 : Z) (g : Game) : frozen g (arrow k2 g).
Proof.
  unfold arrow, frozen.
  repeat match goal with |- context [if ?b then _ else _] => destruct b end;
    cbn; auto.
Qed.

Lemma frozen_trans (g1 g2 g3 : Game) :
  frozen g1 g2 -> frozen g2 g3 -> frozen g1 g3.
Proof. unfold frozen. intuition congruence. Qed.

Lemma frozen_refl (g : Game) : frozen g g.
Proof. unfold frozen. auto. Qed.

Lemma keys_frozen (win32 : bool) (k k2 : Z) (g : Game) :
  frozen g (wasd k (if win32 && (k =? 224) then arrow k2 g else g)).
Proof.
  eapply frozen_trans; [|apply wasd_frozen].
  destruct (win32 && (k =? 224)); [apply arrow_frozen | apply frozen_refl].
Qed.

(** The handling of a key either quits, or restarts a finished game, or
    changes nothing but the pending direction. *)
Lemma on_key_ok (win32 : bool) (fuel : nat) (w h : Z) (k k2 : Z)
    (g : Game) (n : nat) (g' : Game) (n' : nat) :
  on_key rand_int win32 fuel w h k k2 g n = Ok (Continue g', n') ->
  is_quit k = false /\
  ((gameOver g = true /\ is_restart k = true /\
    exists g0, reset_game rand_int fuel w h g0 n = Ok (g', n')) \/
   ((gameOver g = false \/ is_restart k = false) /\
    frozen g g' /\ n' = n)).
Proof.
  unfold on_key. pose proof (keys_frozen win32 k k2 g) as Hfr.
  set (g2 := wasd k _) in *. intros Hrun.
  destruct (is_quit k); [discriminate|]. split; [reflexivity|].
  assert (gameOver g2 = gameOver g) as Hgo by apply Hfr.
  rewrite Hgo in Hrun.
  destruct (gameOver g); cbn [andb] in Hrun.
  - destruct (is_restart k).
    + left. monad_inv.
      match goal with Hc : Continue _ = Continue _ |- _ =>
        injection Hc as -> end.
      eauto.
    + right. injection Hrun as <- <-. auto.
  - right. injection Hrun as <- <-. auto.
Qed.

(** In every state of a run the food is not on the snake. *)
Lemma reachable_food_free (w h : Z) (g : Game) (n : nat) :
  reachable rand_int w h g n -> contains (snake g) (food g) = false.
Proof.
  induction 1 as [fuel n g n' Hreset
                 | win32 fuel k k2 g n g' n' Hreach IH Hkey
                 | fuel g n g' n' Hreach IH Hup].
  - apply reset_game_ok in Hreset. destruct Hreset as (f & Hf & ->).
    cbn [snake food]. eapply random_empty_cell_free; eauto.
  - apply on_key_ok in Hkey.
    destruct Hkey as [_ [(_ & _ & g0 & Hreset) | (_ & Hfr & _)]].
    + apply reset_game_ok in Hreset. destruct Hreset as (f & Hf & ->).
      cbn [snake food]. eapply random_empty_cell_free; eauto.
    + destruct Hfr as (-> & _ & -> & _). exact IH.
  - destruct (gameOver g) eqn:Hgo.
    + rewrite update_over in Hup by assumption.
      injection Hup as <- <-. exact IH.
    + destruct (update_running _ _ _ _ _ _ _ _ Hgo Hup)
        as (hd & rest & nh & Hs & Hnh & Hkind).
      destruct Hkind as [_ -> _ | _ Hfood -> _ | f _ _ _ Hf ->];
        cbn [snake food set_gameOver set_dir].
      * exact IH.
      * apply contains_false_iff. intros Hin.
        rewrite Hs, pop_back_cons in Hin. destruct Hin as [Heq | Hin].
        -- apply pos_eq_false_iff in Hfood. congruence.
        -- apply pop_back_In in Hin. rewrite <- Hs in Hin.
           apply contains_false_iff in IH. contradiction.
      * eapply random_empty_cell_free; eauto.
Qed.

(** In every state of a run the snake has at least two cells. *)
Lemma reachable_two_cells (w h : Z) (g : Game) (n : nat) :
  reachable rand_int w h g n -> (2 <= length (snake g))%nat.
Proof.
  induction 1 as [fuel n g n' Hreset
                 | win32 fuel k k2 g n g' n' Hreach IH Hkey
                 | fuel g n g' n' Hreach IH Hup].
  - apply reset_game_ok in Hreset. destruct Hreset as (f & Hf & ->).
    cbn. lia.
  - apply on_key_ok in Hkey.
    destruct Hkey as [_ [(_ & _ & g0 & Hreset) | (_ & Hfr & _)]].
    + apply reset_game_ok in Hreset. destruct Hreset as (f & Hf & ->).
      cbn. lia.
    + destruct Hfr as (-> & _). exact IH.
  - destruct (gameOver g) eqn:Hgo.
    + rewrite update_over in Hup by assumption.
      injection Hup as <- <-. exact IH.
    + destruct (update_running _ _ _ _ _ _ _ _ Hgo Hup)
        as (hd & rest & nh & Hs & Hnh & Hkind).
      destruct Hkind as [_ -> _ | _ _ -> _ | f _ _ _ _ ->];
        cbn [snake set_gameOver set_dir length].
      * exact IH.
      * rewrite pop_back_length. exact IH.
      * lia.
Qed.

(** In every state of a run the score counts the cells grown since the
    reset. *)
Lemma reachable_score (w h : Z) (g : Game) (n : nat) :
  reachable rand_int w h g n -> score g = Z.of_nat (length (snake g)) - 2.
Proof.
  induction 1 as [fuel n g n' Hreset
                 | win32 fuel k k2 g n g' n' Hreach IH Hkey
                 | fuel g n g' n' Hreach IH Hup].
  - apply reset_game_ok in Hreset. destruct Hreset as (f & Hf & ->).
    reflexivity.
  - apply on_key_ok in Hkey.
    destruct Hkey as [_ [(_ & _ & g0 & Hreset) | (_ & Hfr & _)]].
    + apply reset_game_ok in Hreset. destruct Hreset as (f & Hf & ->).
      reflexivity.
    + destruct Hfr as (-> & _ & _ & -> & _). exact IH.
  - destruct (gameOver g) eqn:Hgo.
    + rewrite update_over in Hup by assumption.
      injection Hup as <- <-. exact IH.
    + destruct (update_running _ _ _ _ _ _ _ _ Hgo Hup)
        as (hd & rest & nh & Hs & Hnh & Hkind).
      destruct Hkind as [_ -> _ | _ _ -> _ | f _ _ _ _ ->];
        cbn [snake score set_gameOver set_dir].
      * exact IH.
      * rewrite pop_back_length. exact IH.
      * cbn [length]. lia.
Qed.

End Reset.

(** ** The properties of the search, of reset and of Game-Over *)

Section GameProperties.

Variable rand_int : nat -> Z -> Z -> Z.

(** C5. The food is never on the snake: the cell the free-cell search
    returns is not contained in the snake it was given, so the food is off
    the snake right after the relocation of [reset_game] and right after
    the relocation of an eating tick, and in every state of a run. *)
Theorem food_never_on_snake :
  (forall fuel w h s n p n',
      random_empty_cell rand_int fuel w h s n = Ok (p, n') ->
      contains s p = false) /\
  (forall fuel w h g n g' n',
      reset_game rand_int fuel w h g n = Ok (g', n') ->
      contains (snake g') (food g') = false) /\
  (forall fuel w h g n hd rest g' n',
      gameOver g = false -> snake g = hd :: rest ->
      next_head hd (committed g) = Ok (food g) ->
      in_grid w h (food g) ->
      update rand_int fuel w h g n = Ok (g', n') ->
      contains (snake g') (food g') = false) /\
  (forall w h g n,
      reachable rand_int w h g n -> contains (snake g) (food g) = false).
Proof.
  split; [|split; [|split]].
  - intros. eapply random_empty_cell_free; eauto.
  - intros fuel w h g n g' n' Hreset.
    apply reset_game_ok in Hreset. destruct Hreset as (f & Hf & ->).
    cbn [snake food]. eapply random_empty_cell_free; eauto.
  - intros fuel w h g n hd rest g' n' Hgo Hs Hnh Hin Hrun.
    apply hits_wall_false in Hin.
    rewrite (update_eat _ _ _ _ _ _ _ _ _ Hgo Hs Hnh Hin (pos_eq_refl _))
      in Hrun.
    destruct (int_add (score g) 1) as [sc| |]; try discriminate.
    destruct (random_empty_cell rand_int fuel w h (food g :: snake g) n)
      as [[f m]| |] eqn:Hf; try discriminate.
    injection Hrun as <- <-. cbn [snake food].
    eapply random_empty_cell_free; eauto.
  - intros. eapply reachable_food_free; eauto.
Qed.

Lemma iteration_frozen (win32 : bool) (fuel : nat) (w h : Z)
    (inp : option (Z * Z)) (g : Game) (n : nat) :
  gameOver g = true -> restart_key inp = false ->
  exists st,
    iteration rand_int win32 fuel w h inp g n = Ok (st, n) /\
    match st with
    | Continue g' => frozen g g'
    | Break => quit_key inp = true
    end.
Proof.
  intros Hgo Hkey. unfold iteration.
  destruct inp as [[k k2]|].
  - cbn [restart_key quit_key] in *. unfold on_key, bind.
    pose proof (keys_frozen win32 k k2 g) as Hfr.
    set (g2 := wasd k _) in *.
    fold (is_quit k). fold (is_restart k) in Hkey |- *.
    destruct (is_quit k).
    + exists Break. auto.
    + rewrite Hkey, andb_false_r. unfold ret at 1.
      assert (gameOver g2 = true) as Hgo2
          by (destruct Hfr as (_ & _ & _ & _ & ->); exact Hgo).
      rewrite update_over by assumption.
      exists (Continue g2). auto.
  - unfold bind, ret at 1. rewrite update_over by assumption.
    exists (Continue g). split; [reflexivity | apply frozen_refl].
Qed.

(** C6. While Game-Over is set a tick changes nothing, and through any
    number of loop iterations without a restart key the snake, the
    direction, the food, the score and the flag stay as they are (the loop
    ends only on a quit key); an accepted restart clears the flag. *)
Theorem game_over_freezes :
  (forall fuel w h g n,
      gameOver g = true -> update rand_int fuel w h g n = Ok (g, n)) /\
  (forall win32 fuel w h inps g n,
      gameOver g = true ->
      forallb (fun inp => negb (restart_key inp)) inps = true ->
      exists st,
        run rand_int win32 fuel w h inps g n = Ok (st, n) /\
        match st with
        | Continue g' => frozen g g'
        | Break => existsb quit_key inps = true
        end) /\
  (forall win32 fuel w h k k2 g n g' n',
      gameOver g = true -> is_restart k = true ->
      on_key rand_int win32 fuel w h k k2 g n = Ok (Continue g', n') ->
      gameOver g' = false).
Proof.
  split; [|split].
  - intros. apply update_over. assumption.
  - intros win32 fuel w h inps. induction inps as [|inp inps IH];
      intros g n Hgo Hkeys.
    + exists (Continue g). split; [reflexivity | apply frozen_refl].
    + cbn [forallb] in Hkeys. apply andb_true_iff in Hkeys.
      destruct Hkeys as [Hkey Hkeys]. apply negb_true_iff in Hkey.
      destruct (iteration_frozen win32 fuel w h inp g n Hgo Hkey)
        as (st & Hit & Hst).
      cbn [run]. unfold bind. rewrite Hit.
      destruct st as [g1|].
      * assert (gameOver g1 = true) as Hgo1
            by (destruct Hst as (_ & _ & _ & _ & ->); exact Hgo).
        destruct (IH g1 n Hgo1 Hkeys) as (st & Hrun & Hst').
        exists st. split; [exact Hrun|].
        destruct st as [g'|].
        -- eapply frozen_trans; eauto.
        -- cbn [existsb]. rewrite Hst'. apply orb_true_r.
      * exists Break. split; [reflexivity|].
        cbn [existsb]. rewrite Hst. reflexivity.
  - intros win32 fuel w h k k2 g n g' n' Hgo Hr Hkey.
    apply on_key_ok in Hkey.
    destruct Hkey as [_ [(_ & _ & g0 & Hreset) | ([Hc | Hc] & _)]];
      try congruence.
    apply reset_game_ok in Hreset. destruct Hreset as (f & _ & ->).
    reflexivity.
Qed.

(** C7. [reset_game], from any state, leaves a two-cell snake with head
    [(w/2, h/2)] and tail [(w/2 - 1, h/2)], both directions [Right], score
    0, Game-Over clear and the food on a grid cell off the snake; a
    second reset right after it yields the same state up to the food,
    which is again a grid cell off the snake. *)
Theorem reset_game_state (fuel1 fuel2 : nat) (w h : Z) (g : Game)
    (n : nat) (g1 : Game) (n1 : nat) (g2 : Game) (n2 : nat) :
  rand_in_range rand_int ->
  reset_game rand_int fuel1 w h g n = Ok (g1, n1) ->
  reset_game rand_int fuel2 w h g1 n1 = Ok (g2, n2) ->
  (snake g1 = [mkPos (Z.quot w 2) (Z.quot h 2);
               mkPos (Z.quot w 2 - 1) (Z.quot h 2)] /\
   dir g1 = Right /\ pending g1 = Right /\ score g1 = 0 /\
   gameOver g1 = false /\
   contains (snake g1) (food g1) = false /\ in_grid w h (food g1)) /\
  (g2 = set_food g1 (food g2) /\
   contains (snake g2) (food g2) = false /\ in_grid w h (food g2)).
Proof.
  intros Hrange Hr1 Hr2.
  apply reset_game_ok in Hr1, Hr2.
  destruct Hr1 as (f1 & Hf1 & ->), Hr2 as (f2 & Hf2 & ->).
  cbn [snake dir pending score gameOver food set_food].
  pose proof (random_empty_cell_free _ _ _ _ _ _ _ _ Hf1).
  pose proof (random_empty_cell_free _ _ _ _ _ _ _ _ Hf2).
  pose proof (random_empty_cell_in_grid _ _ _ _ _ _ _ _ Hrange Hf1).
  pose proof (random_empty_cell_in_grid _ _ _ _ _ _ _ _ Hrange Hf2).
  unfold set_food; cbn [snake dir pending score gameOver].
  intuition reflexivity.
Qed.

(** C9. The free-cell search is rejection sampling without a bound.  On a
    generator that draws every cell of the grid, and for a snake that
    leaves a grid cell free, the search returns the first drawn cell that
    is off the snake once it is given more turns than draws before that
    cell (and is still running with fewer).  For a snake that occupies
    every grid cell the search is still running after any number of
    turns: nothing caps the retries and nothing else is tried. *)
Theorem random_empty_cell_search (w h : Z) (s : list Pos) (n : nat) :
  1 <= w <= INT_MAX -> 1 <= h <= INT_MAX ->
  ((exists c, in_grid w h c /\ ~ In c s) ->
   draws_every_cell rand_int w h n ->
   exists k,
     contains s (drawn rand_int w h n k) = false /\
     (forall j, (j < k)%nat ->
                contains s (drawn rand_int w h n j) = true) /\
     forall fuel,
       random_empty_cell rand_int fuel w h s n =
       if (k <? fuel)%nat
       then Ok (drawn rand_int w h n k, (2 * S k + n)%nat)
       else OutOfFuel) /\
  (rand_in_range rand_int ->
   (forall c, in_grid w h c -> In c s) ->
   forall fuel, random_empty_cell rand_int fuel w h s n = OutOfFuel).
Proof.
  intros Hw Hh. split.
  - apply search_returns_first; assumption.
  - intros. apply search_never_returns; assumption.
Qed.

End GameProperties.

(** ** The first tick on the 30 by 20 grid, and when a tick returns *)

Section Scenario.

Variable rand_int : nat -> Z -> Z -> Z.

(** C8 (amended). On the 30 by 20 grid the reset state has head
    [(15,10)], tail [(14,10)], direction [Right] and score 0.  One tick
    later, with no turn input: when the food is not at [(16,10)] the
    head is [(16,10)], the tail cell [(14,10)] is gone, the snake is
    [[(16,10); (15,10)]] (two cells) and the score is still 0; when the
    food is at [(16,10)] the snake is [[(16,10); (15,10); (14,10)]] and
    the score is 1. *)
Theorem first_tick_scenario (fuel : nat) (g0 : Game) (n : nat) (g : Game)
    (n' : nat) :
  reset_game rand_int fuel W H g0 n = Ok (g, n') ->
  (snake g = [cell 15 10; cell 14 10] /\ dir g = Right /\
   pending g = Right /\ score g = 0 /\ gameOver g = false) /\
  (food g <> cell 16 10 ->
   forall fuel',
     update rand_int fuel' W H g n' =
     Ok (mkGame [cell 16 10; cell 15 10] Right Right (food g) 0 false,
         n')) /\
  (food g = cell 16 10 ->
   forall fuel' g' n'',
     update rand_int fuel' W H g n' = Ok (g', n'') ->
     snake g' = [cell 16 10; cell 15 10; cell 14 10] /\ score g' = 1 /\
     gameOver g' = false).
Proof.
  intros Hreset. apply reset_game_ok in Hreset.
  destruct Hreset as (f & Hf & ->).
  change (Z.quot W 2) with 15. change (Z.quot H 2) with 10.
  change (15 - 1) with 14. cbn [snake dir pending score gameOver food].
  split; [repeat split|]. split.
  - intros Hfood fuel'.
    erewrite update_move with (nh := cell 16 10); try reflexivity.
    apply pos_eq_false_iff. cbn [food]. congruence.
  - intros Hfood fuel' g' n'' Hrun.
    erewrite update_eat with (nh := cell 16 10) in Hrun; try reflexivity.
    2: { apply pos_eq_true_iff. cbn [food]. congruence. }
    cbn [score snake] in Hrun.
    change (int_add 0 1) with (@Ok Z 1) in Hrun. cbv iota in Hrun.
    match type of Hrun with
    | match ?c with _ => _ end = _ =>
        destruct c as [[f' m]| |]; try discriminate
    end.
    injection Hrun as <- <-. repeat split.
Qed.

(** The new head of a snake whose head is in the grid is a pair of
    [int]s. *)
Lemma next_head_in_grid (w h : Z) (hd : Pos) (d : Dir) :
  w <= INT_MAX -> h <= INT_MAX -> in_grid w h hd ->
  exists nh, next_head hd d = Ok nh.
Proof.
  intros Hw Hh [Hx Hy].
  destruct d; unfold next_head, int_add, int_sub.
  - assert (in_int (y hd - 1) = true) as ->; [|eauto].
    apply in_int_true. unfold INT_MIN, INT_MAX in *. lia.
  - assert (in_int (y hd + 1) = true) as ->; [|eauto].
    apply in_int_true. unfold INT_MIN, INT_MAX in *. lia.
  - assert (in_int (x hd - 1) = true) as ->; [|eauto].
    apply in_int_true. unfold INT_MIN, INT_MAX in *. lia.
  - assert (in_int (x hd + 1) = true) as ->; [|eauto].
    apply in_int_true. unfold INT_MIN, INT_MAX in *. lia.
Qed.

(** X18. A tick returns: at once when it does not eat, and when it eats as
    soon as the search is given enough turns, provided the head is in the
    grid, the score is below [INT_MAX], the generator draws every cell and
    a grid cell besides the food is off the snake. *)
Lemma update_returns (w h : Z) (g : Game) (n : nat) (hd : Pos)
    (rest : list Pos) :
  1 <= w <= INT_MAX -> 1 <= h <= INT_MAX ->
  snake g = hd :: rest -> in_grid w h hd ->
  INT_MIN <= score g < INT_MAX ->
  draws_every_cell rand_int w h n ->
  (exists c, in_grid w h c /\ c <> food g /\ ~ In c (snake g)) ->
  exists fuel0, forall fuel, (fuel0 <= fuel)%nat ->
    exists g' n', update rand_int fuel w h g n = Ok (g', n').
Proof.
  intros Hw Hh Hs Hhd Hsc Hfair (c & Hc & Hcf & Hcs).
  destruct (gameOver g) eqn:Hgo.
  { exists 0%nat. intros fuel _. rewrite update_over by assumption. eauto. }
  destruct (next_head_in_grid w h hd (committed g)) as [nh Hnh]; try lia;
    try assumption.
  destruct (hits_wall w h nh) eqn:Hwall.
  { exists 0%nat. intros fuel _.
    rewrite (update_wall _ _ _ _ _ _ _ _ _ Hgo Hs Hnh Hwall). eauto. }
  destruct (pos_eq nh (food g)) eqn:Hfood.
  - destruct (search_returns_first rand_int w h (nh :: snake g) n Hw Hh)
      as (k & _ & _ & Hk); [|assumption|].
    { exists c. split; [assumption|]. intros [Heq | Hin]; [|contradiction].
      apply pos_eq_true_iff in Hfood. congruence. }
    exists (S k). intros fuel Hfuel.
    rewrite (update_eat _ _ _ _ _ _ _ _ _ Hgo Hs Hnh Hwall Hfood).
    unfold int_add.
    assert (in_int (score g + 1) = true) as ->
        by (apply in_int_true; lia).
    rewrite Hk.
    assert ((k <? fuel)%nat = true) as -> by (apply Nat.ltb_lt; lia).
    eauto.
  - exists 0%nat. intros fuel _.
    rewrite (update_move _ _ _ _ _ _ _ _ _ Hgo Hs Hnh Hwall Hfood). eauto.
Qed.

(** X19. [reset_game] returns as soon as the search is given enough turns,
    provided the generator draws every cell and the two cells of the new
    snake leave a grid cell free. *)
Lemma reset_game_returns (w h : Z) (g : Game) (n : nat) :
  1 <= w <= INT_MAX -> 1 <= h <= INT_MAX ->
  draws_every_cell rand_int w h n ->
  (exists c, in_grid w h c /\
             ~ In c [mkPos (Z.quot w 2) (Z.quot h 2);
                     mkPos (Z.quot w 2 - 1) (Z.quot h 2)]) ->
  exists fuel0, forall fuel, (fuel0 <= fuel)%nat ->
    exists g' n', reset_game rand_int fuel w h g n = Ok (g', n').
Proof.
  intros Hw Hh Hfair Hfree.
  destruct (search_returns_first rand_int w h
              [mkPos (Z.quot w 2) (Z.quot h 2);
               mkPos (Z.quot w 2 - 1) (Z.quot h 2)] n Hw Hh Hfree Hfair)
    as (k & _ & _ & Hk).
  exists (S k). intros fuel Hfuel.
  unfold reset_game, bind, lift, int_sub.
  assert (in_int (Z.quot w 2 - 1) = true) as ->.
  { apply in_int_true. unfold INT_MIN, INT_MAX in *.
    Z.to_euclidean_division_equations. lia. }
  cbn [snake push_back push_front app]. rewrite Hk.
  assert ((k <? fuel)%nat = true) as -> by (apply Nat.ltb_lt; lia).
  unfold ret. eauto.
Qed.

(** On a grid at least two cells wide, the snake of every state of a run
    lies in the grid. *)
Lemma reachable_in_grid (w h : Z) (g : Game) (n : nat) :
  2 <= w ->
  reachable rand_int w h g n -> Forall (in_grid w h) (snake g).
Proof.
  intros Hw2.
  assert (forall fuel g0 m g' m',
             reset_game rand_int fuel w h g0 m = Ok (g', m') ->
             Forall (in_grid w h) (snake g')) as Hreset_ok.
  { intros fuel g0 m g' m' Hreset.
    apply reset_game_ok in Hreset. destruct Hreset as (f & Hf & ->).
    apply random_empty_cell_ok in Hf. destruct Hf as (_ & Hw & Hh).
    cbn [snake]. repeat constructor; cbn [x y];
      Z.to_euclidean_division_equations; lia. }
  induction 1 as [fuel n g n' Hreset
                 | win32 fuel k k2 g n g' n' Hreach IH Hkey
                 | fuel g n g' n' Hreach IH Hup].
  - eapply Hreset_ok; eauto.
  - apply on_key_ok in Hkey.
    destruct Hkey as [_ [(_ & _ & g0 & Hreset) | (_ & Hfr & _)]].
    + eapply Hreset_ok; eauto.
    + destruct Hfr as (-> & _). exact IH.
  - destruct (gameOver g) eqn:Hgo.
    + rewrite update_over in Hup by assumption.
      injection Hup as <- <-. exact IH.
    + destruct (update_running _ _ _ _ _ _ _ _ Hgo Hup)
        as (hd & rest & nh & Hs & Hnh & Hkind).
      destruct Hkind as [_ -> _ | Hwall _ -> _ | f Hwall _ _ _ ->];
        cbn [snake set_gameOver set_dir].
      * exact IH.
      * apply hits_wall_false in Hwall. apply Forall_forall.
        intros p Hp. apply pop_back_In in Hp. destruct Hp as [<- | Hp].
        -- exact Hwall.
        -- rewrite Forall_forall in IH. apply IH. exact Hp.
      * apply hits_wall_false in Hwall. constructor; assumption.
Qed.

End Scenario.

(** ** The sample generators *)

Lemma scan_rand_in_range (width : nat) : rand_in_range (scan_rand width).
Proof.
  intros n a b Hab. unfold scan_rand.
  destruct (Nat.even n).
  - pose proof (Z.mod_pos_bound (Z.of_nat (Nat.div2 n)) (b - a + 1)). lia.
  - pose proof (Z.mod_pos_bound (Z.of_nat (Nat.div2 n / width)) (b - a + 1)).
    lia.
Qed.

Lemma low_rand_in_range : rand_in_range low_rand.
Proof. intros n a b Hab. unfold low_rand. lia. Qed.

(** [scan_rand] draws the cell [(cx, cy)] at its turn [cy * width + cx]. *)
Lemma scan_rand_draws_every_cell (wn hn : nat) :
  draws_every_cell (scan_rand wn) (Z.of_nat wn) (Z.of_nat hn) 0.
Proof.
  intros [cx cy] [Hx Hy]. cbn [x y] in Hx, Hy.
  exists (Z.to_nat (cy * Z.of_nat wn + cx)).
  set (k := Z.to_nat (cy * Z.of_nat wn + cx)).
  assert (Z.of_nat k = cy * Z.of_nat wn + cx) as Hk
      by (unfold k; rewrite Z2Nat.id; nia).
  unfold drawn, scan_rand. rewrite Nat.add_0_r.
  rewrite Nat.even_succ, <- Nat.negb_even.
  assert (Nat.even (2 * k) = true) as -> by (rewrite Nat.even_mul; reflexivity).
  cbn [negb]. rewrite Nat.div2_succ_double, Nat.div2_double.
  rewrite Nat2Z.inj_div, Hk.
  replace (Z.of_nat wn - 1 - 0 + 1) with (Z.of_nat wn) by lia.
  replace (Z.of_nat hn - 1 - 0 + 1) with (Z.of_nat hn) by lia.
  rewrite (Z.add_comm (cy * Z.of_nat wn) cx).
  rewrite Z.mod_add, Z.div_add by lia.
  rewrite (Z.mod_small cx), (Z.div_small cx), (Z.mod_small (0 + cy)) by lia.
  reflexivity.
Qed.

Lemma grid_cells_complete (wn hn : nat) (c : Pos) :
  in_grid (Z.of_nat wn) (Z.of_nat hn) c -> In c (grid_cells wn hn).
Proof.
  destruct c as [cx cy]. intros [Hx Hy]. cbn [x y] in Hx, Hy.
  unfold grid_cells. apply in_flat_map.
  exists (Z.to_nat cy). split; [apply in_seq; lia|].
  apply in_map_iff. exists (Z.to_nat cx). split; [|apply in_seq; lia].
  unfold cell. rewrite !Z2Nat.id by lia. reflexivity.
Qed.

(** ** Closed examples *)

Lemma W_is_int : INT_MIN <= W <= INT_MAX.
Proof. unfold INT_MIN, INT_MAX, W. lia. Qed.

Lemma W_is_count : 1 <= W <= INT_MAX.
Proof. unfold INT_MAX, W. lia. Qed.

Lemma H_is_count : 1 <= H <= INT_MAX.
Proof. unfold INT_MAX, H. lia. Qed.

(** The tick of [turn_state] commits [Up]; the tick of [back_state] ignores
    [Left]. *)
Lemma tick_commits_direction_witness :
  dir turned_state = pending turn_state /\ dir backed_state = dir back_state.
Proof.
  split.
  - apply (tick_commits_direction low_rand 0%nat W H turn_state 0%nat turned_state 0%nat);
      reflexivity.
  - apply (tick_commits_direction low_rand 0%nat W H back_state 0%nat backed_state 0%nat);
      reflexivity.
Defined.

(** The tick of [wall_state], whose head [(29,10)] moves [Right]. *)
Lemma tick_wall_collision_witness :
  update low_rand 0%nat W H wall_state 0%nat = Ok (over_state, 0%nat) /\
  update low_rand 0%nat W H wall_state 0%nat = Ok (over_state, 0%nat).
Proof.
  split.
  - apply (proj1 (tick_wall_collision low_rand 0%nat W H wall_state 0%nat eq_refl)
                 (cell 29 10) [cell 28 10] (cell 30 10)).
    + reflexivity.
    + reflexivity.
    + unfold in_grid, W, H; cbn. lia.
  - apply (proj2 (tick_wall_collision low_rand 0%nat W H wall_state 0%nat eq_refl)
                 10 [cell 28 10]).
    + exact W_is_int.
    + reflexivity.
    + reflexivity.
Defined.

(** The tick of [start_state] moves, the tick of [feed_state] eats. *)
Lemma tick_length_and_score_witness :
  (length (snake moved_state) = length (snake start_state) /\
   score moved_state = score start_state) /\
  (length (snake fed_state) = S (length (snake feed_state)) /\
   score fed_state = score feed_state + 1).
Proof.
  split.
  - apply (tick_length_and_score low_rand 0%nat W H start_state 0%nat
             (cell 15 10) (cell 16 10) [cell 14 10] moved_state 0%nat).
    + reflexivity.
    + reflexivity.
    + reflexivity.
    + unfold in_grid, W, H; cbn. lia.
    + reflexivity.
    + discriminate.
  - apply (tick_length_and_score (scan_rand 30) 1%nat W H feed_state 0%nat
             (cell 15 10) (cell 16 10) [cell 14 10] fed_state 2%nat).
    + reflexivity.
    + reflexivity.
    + reflexivity.
    + unfold in_grid, W, H; cbn. lia.
    + reflexivity.
    + reflexivity.
Defined.

(** The tick of [loop_state] runs the head into the cell that was at index
    3; the tick of [jump_state] into the cell that was at index 2. *)
Lemma tick_self_collision_witness :
  (gameOver looped_state = true <->
   exists i, (1 <= i < length (snake looped_state))%nat /\
             nth_error (snake looped_state) i = Some (cell 6 5)) /\
  gameOver jumped_state = true.
Proof.
  split.
  - apply (tick_self_collision low_rand 0%nat W H loop_state 0%nat
             (cell 5 5) (cell 6 5) [cell 5 6; cell 6 6; cell 6 5; cell 7 5]
             looped_state 0%nat).
    + reflexivity.
    + reflexivity.
    + reflexivity.
    + unfold in_grid, W, H; cbn. lia.
    + reflexivity.
  - apply (tick_self_collision low_rand 0%nat W H jump_state 0%nat
             (cell 5 5) (cell 6 5) [cell 5 6; cell 6 5; cell 7 5]
             jumped_state 0%nat).
    + reflexivity.
    + reflexivity.
    + reflexivity.
    + unfold in_grid, W, H; cbn. lia.
    + reflexivity.
    + cbn. lia.
    + reflexivity.
Defined.

(** The tick of [feed_state] eats and does not end the game. *)
Lemma eating_tick_never_collides_witness : gameOver fed_state = false.
Proof.
  apply (eating_tick_never_collides (scan_rand 30) 1%nat W H feed_state 0%nat
           (cell 15 10) (cell 16 10) [cell 14 10] fed_state 2%nat).
  - reflexivity.
  - reflexivity.
  - reflexivity.
  - reflexivity.
  - unfold in_grid, W, H; cbn. lia.
  - reflexivity.
  - reflexivity.
Defined.

Lemma start_state_reachable : reachable (scan_rand 30) W H start_state 2%nat.
Proof. apply (reach_start (scan_rand 30) W H 1%nat 0%nat). reflexivity. Qed.

(** The search after a reset, the reset itself, the tick of [feed_state] and
    the states of a run. *)
Lemma food_never_on_snake_witness :
  contains [cell 15 10; cell 14 10] (cell 0 0) = false /\
  contains (snake start_state) (food start_state) = false /\
  contains (snake fed_state) (food fed_state) = false /\
  contains (snake moved_state) (food moved_state) = false.
Proof.
  destruct (food_never_on_snake (scan_rand 30))
    as (Hsearch & Hreset & Heat & Hreach).
  split; [|split; [|split]].
  - apply (Hsearch 1%nat W H [cell 15 10; cell 14 10] 0%nat (cell 0 0) 2%nat).
    reflexivity.
  - apply (Hreset 1%nat W H main_init 0%nat start_state 2%nat). reflexivity.
  - apply (Heat 1%nat W H feed_state 0%nat (cell 15 10) [cell 14 10]
                fed_state 2%nat).
    + reflexivity.
    + reflexivity.
    + reflexivity.
    + unfold in_grid, W, H; cbn. lia.
    + reflexivity.
  - apply (Hreach W H moved_state 2%nat).
    apply (reach_update (scan_rand 30) W H 0%nat start_state 2%nat).
    + exact start_state_reachable.
    + reflexivity.
Defined.

(** Three iterations on [over_state]: no key, [a], arrow up; then [r]. *)
Lemma game_over_freezes_witness :
  update low_rand 0 W H over_state 0%nat = Ok (over_state, 0%nat) /\
  (exists st,
      run low_rand true 0 W H [None; Some (97, 0); Some (224, 72)]
          over_state 0%nat = Ok (st, 0%nat) /\
      match st with
      | Continue g' => frozen over_state g'
      | Break =>
          existsb quit_key [None; Some (97, 0); Some (224, 72)] = true
      end) /\
  gameOver start_state = false.
Proof.
  destruct (game_over_freezes (scan_rand 30)) as (_ & _ & Hrestart).
  destruct (game_over_freezes low_rand) as (Htick & Hrun & _).
  split; [|split].
  - apply (Htick 0%nat W H over_state 0%nat). reflexivity.
  - apply (Hrun true 0%nat W H [None; Some (97, 0); Some (224, 72)]
                over_state 0%nat); reflexivity.
  - apply (Hrestart false 1%nat W H 114 0 over_state 0%nat start_state 2%nat);
      reflexivity.
Defined.

(** Two resets in a row on the scanning generator. *)
Lemma reset_game_state_witness :
  restart_state = set_food start_state (food restart_state) /\
  in_grid W H (food start_state) /\ in_grid W H (food restart_state).
Proof.
  destruct (reset_game_state (scan_rand 30) 1 1 W H main_init 0
              start_state 2 restart_state 4 (scan_rand_in_range 30)
              eq_refl eq_refl)
    as ((_ & _ & _ & _ & _ & _ & Hin1) & (Hsame & _ & Hin2)).
  split; [exact Hsame|]. split; assumption.
Defined.

(** The first tick after a reset that put the food at the origin. *)
Lemma first_tick_scenario_witness :
  update (scan_rand 30) 0 W H start_state 2%nat = Ok (moved_state, 2%nat).
Proof.
  destruct (first_tick_scenario (scan_rand 30) 1 main_init 0 start_state 2
              eq_refl) as (_ & Hmove & _).
  apply (Hmove ltac:(discriminate) 0%nat).
Defined.

(** After the first tick the snake is not the single cell [(16,10)]: it
    still has two cells. *)
Lemma first_tick_snake_not_single :
  reset_game (scan_rand 30) 1 W H main_init 0%nat = Ok (start_state, 2%nat) /\
  pending start_state = dir start_state /\
  food start_state <> cell 16 10 /\
  update (scan_rand 30) 1 W H start_state 2%nat = Ok (moved_state, 2%nat) /\
  length (snake moved_state) = 2%nat /\
  snake moved_state <> [cell 16 10].
Proof. repeat split; try reflexivity; discriminate. Qed.

(** The search after a reset on the scanning generator, and the search on a
    board that the snake fills. *)
Lemma random_empty_cell_search_witness :
  (exists k,
      contains [cell 15 10; cell 14 10] (drawn (scan_rand 30) W H 0 k)
      = false /\
      (forall j, (j < k)%nat ->
                 contains [cell 15 10; cell 14 10]
                          (drawn (scan_rand 30) W H 0 j) = true) /\
      forall fuel,
        random_empty_cell (scan_rand 30) fuel W H [cell 15 10; cell 14 10] 0%nat
        =
        if (k <? fuel)%nat
        then Ok (drawn (scan_rand 30) W H 0 k, (2 * S k + 0)%nat)
        else OutOfFuel) /\
  (forall fuel,
      random_empty_cell low_rand fuel W H (grid_cells 30 20) 0%nat = OutOfFuel).
Proof.
  split.
  - apply (proj1 (random_empty_cell_search (scan_rand 30) W H
                    [cell 15 10; cell 14 10] 0 W_is_count H_is_count)).
    + exists (cell 0 0). split.
      * unfold in_grid, W, H; cbn. lia.
      * intros [E | [E | []]]; discriminate E.
    + exact (scan_rand_draws_every_cell 30 20).
  - apply (proj2 (random_empty_cell_search low_rand W H
                    (grid_cells 30 20) 0 W_is_count H_is_count)).
    + exact low_rand_in_range.
    + exact (grid_cells_complete 30 20).
Defined.

(** Free cells alone do not end the search: on the generator that always
    draws the origin, a snake lying on the origin keeps it running. *)
Example search_starves (fuel : nat) :
  random_empty_cell low_rand fuel W H [cell 0 0; cell 1 0] 0%nat = OutOfFuel.
Proof.
  rewrite random_empty_cell_unfold by (unfold INT_MIN, INT_MAX, W, H; lia).
  apply sample_loop_full; try (unfold W, H; lia).
  intros k. reflexivity.
Qed.

(** ** Invariants of a run *)

Lemma next_head_step (p q : Pos) (d : Dir) :
  next_head p d = Ok q ->
  x q = x p + fst (step_of d) /\ y q = y p + snd (step_of d).
Proof.
  destruct d; unfold next_head, int_add, int_sub; cbn [step_of fst snd].
  - destruct (in_int (y p - 1)); [|discriminate].
    intros [= <-]; cbn [x y]; lia.
  - destruct (in_int (y p + 1)); [|discriminate].
    intros [= <-]; cbn [x y]; lia.
  - destruct (in_int (x p - 1)); [|discriminate].
    intros [= <-]; cbn [x y]; lia.
  - destruct (in_int (x p + 1)); [|discriminate].
    intros [= <-]; cbn [x y]; lia.
Qed.

Lemma next_head_adjacent (p q : Pos) (d : Dir) :
  next_head p d = Ok q -> adjacent q p.
Proof.
  intros Hq. apply next_head_step in Hq. unfold adjacent.
  destruct d; cbn [step_of fst snd] in Hq; lia.
Qed.

Lemma chain_pop_back (l : list Pos) : chain l -> chain (pop_back l).
Proof.
  induction l as [|a l IH]; [auto|].
  destruct l as [|b l]; [auto|].
  rewrite pop_back_cons. intros [Hab Hc].
  destruct l as [|c l]; [exact I|].
  rewrite pop_back_cons in *. split; [exact Hab | apply IH; exact Hc].
Qed.

Lemma NoDup_pop_back (l : list Pos) : NoDup l -> NoDup (pop_back l).
Proof.
  induction l as [|a l IH]; [auto|].
  destruct l as [|b l]; [intros _; constructor|].
  rewrite pop_back_cons. intros Hnd. inversion Hnd as [|? ? Hnotin Hrest]; subst.
  constructor.
  - intros Hin. apply Hnotin. apply pop_back_In. exact Hin.
  - apply IH. exact Hrest.
Qed.

Lemma grid_cells_length (wn hn : nat) :
  length (grid_cells wn hn) = (wn * hn)%nat.
Proof.
  unfold grid_cells.
  assert (forall l : list nat,
             length (flat_map
                       (fun j => map (fun i => cell (Z.of_nat i) (Z.of_nat j))
                                     (seq 0 wn)) l)
             = (wn * length l)%nat) as Hlen.
  { induction l as [|j l IH]; cbn [flat_map length]; [lia|].
    rewrite length_app, length_map, length_seq, IH. lia. }
  rewrite Hlen, length_seq. reflexivity.
Qed.

(** Distinct cells of the grid are at most as many as the grid has. *)
Lemma grid_pigeonhole (w h : Z) (l : list Pos) :
  Forall (in_grid w h) l -> NoDup l -> (length l <= cells w h)%nat.
Proof.
  intros Hin Hnd. unfold cells. rewrite <- grid_cells_length.
  apply NoDup_incl_length; [exact Hnd|].
  intros c Hc. rewrite Forall_forall in Hin. specialize (Hin c Hc).
  apply grid_cells_complete. unfold in_grid in *. lia.
Qed.

Section Invariants.

Variable rand_int : nat -> Z -> Z -> Z.

(** A property of the first reset that key handling and ticks of a running
    game keep holds in every state of a run. *)
Lemma reachable_keeps (w h : Z) (P : Game -> Prop) :
  (forall fuel g0 n g n',
      reset_game rand_int fuel w h g0 n = Ok (g, n') -> P g) ->
  (forall g g', P g -> frozen g g' -> P g') ->
  (forall fuel g n g' n',
      reachable rand_int w h g n -> P g -> gameOver g = false ->
      update rand_int fuel w h g n = Ok (g', n') -> P g') ->
  forall g n, reachable rand_int w h g n -> P g.
Proof.
  intros Hreset Hfrozen Htick.
  induction 1 as [fuel n g n' Hr
                 | win32 fuel k k2 g n g' n' Hreach IH Hkey
                 | fuel g n g' n' Hreach IH Hup].
  - eapply Hreset; eauto.
  - apply on_key_ok in Hkey.
    destruct Hkey as [_ [(_ & _ & g0 & Hr) | (_ & Hfr & _)]].
    + eapply Hreset; eauto.
    + eapply Hfrozen; eauto.
  - destruct (gameOver g) eqn:Hgo.
    + rewrite update_over in Hup by assumption.
      injection Hup as <- <-. exact IH.
    + eapply Htick; eauto.
Qed.

Lemma reachable_grid (w h : Z) (g : Game) (n : nat) :
  reachable rand_int w h g n -> 1 <= w /\ 1 <= h.
Proof.
  induction 1 as [fuel n g n' Hr | | ]; try assumption.
  apply reset_game_ok in Hr. destruct Hr as (f & Hf & _).
  apply random_empty_cell_ok in Hf. tauto.
Qed.

(** The snake is a chain of neighbouring cells, and while the game runs its
    cells are distinct and the head lies in direction [dir] of the neck. *)
Lemma reachable_shape (w h : Z) (g : Game) (n : nat) :
  reachable rand_int w h g n ->
  chain (snake g) /\
  (gameOver g = false -> NoDup (snake g) /\ heading g).
Proof.
  revert g n.
  apply (reachable_keeps w h
           (fun g => chain (snake g) /\
                     (gameOver g = false -> NoDup (snake g) /\ heading g))).
  - intros fuel g0 m g1 m' Hr.
    apply reset_game_ok in Hr. destruct Hr as (f & _ & ->).
    cbn [snake gameOver]. split.
    + cbn [chain]. split; [|exact I]. unfold adjacent; cbn [x y]. lia.
    + intros _. split.
      * constructor; [|constructor; [intros []|constructor]].
        intros [E | []]. injection E as E. lia.
      * unfold heading; cbn [snake dir step_of fst snd x y]. lia.
  - intros g1 g2 [Hc Hrun] (Hs & Hd & _ & _ & Hgo).
    unfold heading in *. rewrite Hs, Hd, Hgo. auto.
  - intros fuel g1 m g2 m' _ [Hc Hrun] Hgo Hup.
    destruct (Hrun Hgo) as [Hnd Hhd].
    destruct (update_running _ _ _ _ _ _ _ _ Hgo Hup)
      as (hd & rest & nh & Hs & Hnh & Hkind).
    pose proof (next_head_adjacent _ _ _ Hnh) as Hadj.
    pose proof (next_head_step _ _ _ Hnh) as Hstep.
    destruct Hkind as [_ -> _ | _ _ -> _ | f _ _ _ _ ->];
      cbn [snake gameOver dir set_gameOver set_dir].
    + split; [exact Hc | discriminate].
    + rewrite Hs in *. destruct rest as [|nk rest].
      * split; [exact I|]. intros _. split; [|exact I].
        constructor; [intros [] | constructor].
      * rewrite !pop_back_cons. split.
        -- split; [exact Hadj|].
           rewrite <- pop_back_cons. apply chain_pop_back. exact Hc.
        -- rewrite self_hit_cons. intros Hfree.
           apply contains_false_iff in Hfree. split.
           ++ constructor; [exact Hfree|].
              rewrite <- pop_back_cons. apply NoDup_pop_back. exact Hnd.
           ++ unfold heading; cbn [snake dir]. exact Hstep.
    + rewrite Hs in *. split.
      * split; [exact Hadj | exact Hc].
      * rewrite self_hit_cons. intros Hfree.
        apply contains_false_iff in Hfree. split.
        -- constructor; assumption.
        -- unfold heading; cbn [snake dir]. exact Hstep.
Qed.

(** The food lies in the grid. *)
Lemma reachable_food_in_grid (w h : Z) (g : Game) (n : nat) :
  rand_in_range rand_int ->
  reachable rand_int w h g n -> in_grid w h (food g).
Proof.
  intros Hrange. revert g n.
  apply (reachable_keeps w h (fun g => in_grid w h (food g))).
  - intros fuel g0 m g1 m' Hr.
    apply reset_game_ok in Hr. destruct Hr as (f & Hf & ->).
    cbn [food]. eapply random_empty_cell_in_grid; eauto.
  - intros g1 g2 Hin (_ & _ & -> & _). exact Hin.
  - intros fuel g1 m g2 m' _ Hin Hgo Hup.
    destruct (update_running _ _ _ _ _ _ _ _ Hgo Hup)
      as (hd & rest & nh & Hs & Hnh & Hkind).
    destruct Hkind as [_ -> _ | _ _ -> _ | f _ _ _ Hf ->];
      cbn [food set_gameOver set_dir]; try exact Hin.
    eapply random_empty_cell_in_grid; eauto.
Qed.

(** The snake never has more cells than the grid. *)
Lemma reachable_length (w h : Z) (g : Game) (n : nat) :
  2 <= w ->
  reachable rand_int w h g n -> (length (snake g) <= cells w h)%nat.
Proof.
  intros Hw. revert g n.
  apply (reachable_keeps w h
           (fun g => (length (snake g) <= cells w h)%nat)).
  - intros fuel g0 m g1 m' Hr.
    apply reset_game_ok in Hr. destruct Hr as (f & Hf & ->).
    apply random_empty_cell_ok in Hf. destruct Hf as (_ & _ & Hh).
    cbn [snake length]. unfold cells. nia.
  - intros g1 g2 Hlen (-> & _). exact Hlen.
  - intros fuel g1 m g2 m' Hreach Hlen Hgo Hup.
    pose proof (reach_update _ _ _ _ _ _ _ _ Hreach Hup) as Hreach2.
    destruct (update_running _ _ _ _ _ _ _ _ Hgo Hup)
      as (hd & rest & nh & Hs & Hnh & Hkind).
    destruct Hkind as [_ -> _ | _ _ -> _ | f _ Hfood _ _ Hg2];
      cbn [snake set_gameOver set_dir].
    + exact Hlen.
    + rewrite pop_back_length. exact Hlen.
    + apply grid_pigeonhole.
      * eapply reachable_in_grid; eauto.
      * apply (reachable_shape w h g2 m' Hreach2).
        rewrite Hg2; cbn [gameOver]. rewrite self_hit_cons.
        apply pos_eq_true_iff in Hfood. rewrite Hfood.
        eapply reachable_food_free; eauto.
Qed.

Lemma sample_loop_defined (fuel : nat) (w h : Z) (s : list Pos) (n : nat) :
  1 <= w -> 1 <= h ->
  sample_loop rand_int fuel (w - 1) (h - 1) s n <> Undefined.
Proof.
  intros Hw Hh. revert n. induction fuel as [|fuel IH]; intros n.
  - discriminate.
  - rewrite sample_loop_step by assumption.
    destruct (contains s _); [apply IH | discriminate].
Qed.

End Invariants.

(** ** Further properties of a run *)

Section RunProperties.

Variable rand_int : nat -> Z -> Z -> Z.

(** X1. In every state of a run the snake is a path on the grid: each cell
    shares a side with the cell behind it. *)
Theorem snake_is_a_path (w h : Z) (g : Game) (n : nat) :
  reachable rand_int w h g n -> chain (snake g).
Proof. intros Hreach. apply (reachable_shape _ _ _ _ _ Hreach). Qed.

(** X2. In every state of a run in which the game is not over, no two
    cells of the snake coincide. *)
Theorem running_snake_has_distinct_cells (w h : Z) (g : Game) (n : nat) :
  reachable rand_int w h g n -> gameOver g = false -> NoDup (snake g).
Proof.
  intros Hreach Hgo. apply (reachable_shape _ _ _ _ _ Hreach). exact Hgo.
Qed.

(** X3. On a grid at least two cells wide, in every state of a run all
    cells of the snake and the food lie inside the grid. *)
Theorem snake_and_food_stay_in_grid (w h : Z) (g : Game) (n : nat) :
  2 <= w -> rand_in_range rand_int ->
  reachable rand_int w h g n ->
  Forall (in_grid w h) (snake g) /\ in_grid w h (food g).
Proof.
  intros Hw Hrange Hreach. split.
  - eapply reachable_in_grid; eauto.
  - eapply reachable_food_in_grid; eauto.
Qed.

(** X4. In every state of a run the score is the length of the snake minus
    the two cells of the reset, and so lies between 0 and the number of grid
    cells minus 2. *)
Theorem score_counts_growth (w h : Z) (g : Game) (n : nat) :
  2 <= w ->
  reachable rand_int w h g n ->
  score g = Z.of_nat (length (snake g)) - 2 /\
  0 <= score g <= Z.of_nat (cells w h) - 2.
Proof.
  intros Hw Hreach.
  pose proof (reachable_score _ _ _ _ _ Hreach) as Hsc.
  pose proof (reachable_two_cells _ _ _ _ _ Hreach) as H2.
  pose proof (reachable_length _ _ _ _ _ Hw Hreach) as Hlen.
  split; [exact Hsc | lia].
Qed.

Lemma reset_game_defined (fuel : nat) (w h : Z) (g : Game) (n : nat) :
  1 <= w <= INT_MAX -> 1 <= h <= INT_MAX ->
  reset_game rand_int fuel w h g n <> Undefined.
Proof.
  intros Hw Hh. unfold reset_game, bind, lift, int_sub.
  assert (in_int (Z.quot w 2 - 1) = true) as ->.
  { apply in_int_true. unfold INT_MIN, INT_MAX in *.
    Z.to_euclidean_division_equations. lia. }
  cbn [snake push_back push_front app].
  rewrite random_empty_cell_unfold
    by (unfold INT_MIN, INT_MAX in *; lia).
  pose proof (sample_loop_defined rand_int fuel w h
                [mkPos (Z.quot w 2) (Z.quot h 2);
                 mkPos (Z.quot w 2 - 1) (Z.quot h 2)] n) as Hdef.
  destruct (sample_loop rand_int fuel (w - 1) (h - 1) _ n) as [[f m]| |];
    try discriminate.
  exfalso. apply Hdef; try lia. reflexivity.
Qed.

Lemma update_defined (fuel : nat) (w h : Z) (g : Game) (n : nat) :
  2 <= w -> w * h <= INT_MAX ->
  reachable rand_int w h g n ->
  update rand_int fuel w h g n <> Undefined.
Proof.
  intros Hw Hwh Hreach.
  destruct (reachable_grid _ _ _ _ _ Hreach) as [_ Hh].
  assert (w <= INT_MAX /\ h <= INT_MAX) as [Hwi Hhi] by nia.
  destruct (gameOver g) eqn:Hgo.
  { rewrite update_over by assumption. discriminate. }
  pose proof (reachable_two_cells _ _ _ _ _ Hreach) as H2.
  pose proof (reachable_in_grid _ _ _ _ _ Hw Hreach) as Hin.
  pose proof (reachable_score _ _ _ _ _ Hreach) as Hsc.
  pose proof (reachable_length _ _ _ _ _ Hw Hreach) as Hlen.
  destruct (snake g) as [|hd rest] eqn:Hs; [cbn in H2; lia|].
  inversion Hin as [|? ? Hhd _]; subst.
  destruct (next_head_in_grid w h hd (committed g) Hwi Hhi Hhd) as [nh Hnh].
  destruct (hits_wall w h nh) eqn:Hwall.
  { rewrite (update_wall _ _ _ _ _ _ _ _ _ Hgo Hs Hnh Hwall). discriminate. }
  destruct (pos_eq nh (food g)) eqn:Hfood.
  - rewrite (update_eat _ _ _ _ _ _ _ _ _ Hgo Hs Hnh Hwall Hfood).
    unfold int_add.
    assert (in_int (score g + 1) = true) as ->.
    { apply in_int_true. unfold cells in Hlen.
      assert (Z.of_nat (Z.to_nat w * Z.to_nat h) = w * h) by nia.
      unfold INT_MIN, INT_MAX in *. lia. }
    rewrite random_empty_cell_unfold
      by (unfold INT_MIN, INT_MAX in *; lia).
    pose proof (sample_loop_defined rand_int fuel w h (nh :: snake g) n)
      as Hdef.
    destruct (sample_loop rand_int fuel (w - 1) (h - 1) _ n) as [[f m]| |];
      try discriminate.
    exfalso. apply Hdef; try lia. reflexivity.
  - rewrite (update_move _ _ _ _ _ _ _ _ _ Hgo Hs Hnh Hwall Hfood).
    discriminate.
Qed.

(** X5. No loop iteration of a run invokes undefined behaviour, on a grid
    at least two cells wide whose cell count is an [int]: [front] is never
    taken of an empty snake, no coordinate and no score leaves the [int]
    range, and the distributions get ordered bounds.  An iteration either
    returns or is still inside the free-cell search. *)
Theorem play_is_defined (win32 : bool) (fuel : nat) (w h : Z)
    (inp : option (Z * Z)) (g : Game) (n : nat) :
  2 <= w -> w * h <= INT_MAX ->
  reachable rand_int w h g n ->
  iteration rand_int win32 fuel w h inp g n <> Undefined.
Proof.
  intros Hw Hwh Hreach.
  destruct (reachable_grid _ _ _ _ _ Hreach) as [_ Hh].
  assert (w <= INT_MAX /\ h <= INT_MAX) as [Hwi Hhi] by nia.
  unfold iteration, bind.
  destruct inp as [[k k2]|].
  - destruct (on_key rand_int win32 fuel w h k k2 g n)
      as [[[g1|] m]| |] eqn:Hkey.
    + pose proof (reach_key _ _ _ _ _ _ _ _ _ _ _ Hreach Hkey) as Hreach1.
      pose proof (update_defined fuel w h g1 m Hw Hwh Hreach1) as Hdef.
      destruct (update rand_int fuel w h g1 m) as [[g2 m2]| |];
        try discriminate. contradiction.
    + discriminate.
    + exfalso. unfold on_key in Hkey.
      destruct (is_quit k); [discriminate|].
      destruct (gameOver _ && is_restart k); [|discriminate].
      unfold bind in Hkey.
      match type of Hkey with
      | match ?c with _ => _ end = _ =>
          pose proof (reset_game_defined fuel w h
                        (wasd k (if win32 && (k =? 224)
                                 then arrow k2 g else g)) n
                        ltac:(lia) ltac:(lia)) as Hdef;
          destruct c as [[g3 m3]| |] eqn:Hr; try discriminate
      end.
      apply Hdef. reflexivity.
    + discriminate.
  - unfold ret at 1.
    pose proof (update_defined fuel w h g n Hw Hwh Hreach) as Hdef.
    destruct (update rand_int fuel w h g n) as [[g2 m2]| |];
      try discriminate. contradiction.
Qed.

(** X6. In a running state of a run the new head of a tick is never the
    cell right behind the head: the direction committed by the tick never
    leads back into the neck. *)
Theorem no_turn_into_neck (w h : Z) (g : Game) (n : nat)
    (hd nk nh : Pos) (rest : list Pos) :
  reachable rand_int w h g n -> gameOver g = false ->
  snake g = hd :: nk :: rest ->
  next_head hd (committed g) = Ok nh ->
  nh <> nk.
Proof.
  intros Hreach Hgo Hs Hnh.
  destruct (reachable_shape _ _ _ _ _ Hreach) as [_ Hrun].
  destruct (Hrun Hgo) as [_ Hhd]. unfold heading in Hhd. rewrite Hs in Hhd.
  apply next_head_step in Hnh. intros ->.
  unfold committed in Hnh.
  destruct (dir g), (pending g); cbn in Hnh, Hhd; lia.
Qed.

(** X7. On a grid at least two cells wide, a returning tick of a running
    state of a run leaves the snake in place with Game-Over set exactly
    when the head is on the border and the committed direction points out
    of the grid. *)
Theorem wall_hit_on_border (fuel : nat) (w h : Z) (g : Game) (n : nat)
    (hd : Pos) (rest : list Pos) (g' : Game) (n' : nat) :
  2 <= w ->
  reachable rand_int w h g n -> gameOver g = false ->
  snake g = hd :: rest ->
  update rand_int fuel w h g n = Ok (g', n') ->
  (snake g' = snake g /\ gameOver g' = true) <->
  facing_wall w h hd (committed g).
Proof.
  intros Hw Hreach Hgo Hs Hup.
  pose proof (reachable_in_grid _ _ _ _ _ Hw Hreach) as Hin.
  rewrite Hs in Hin. inversion Hin as [|? ? [Hx Hy] _]; subst.
  destruct (update_running _ _ _ _ _ _ _ _ Hgo Hup)
    as (hd' & rest' & nh & Hs' & Hnh & Hkind).
  rewrite Hs in Hs'. injection Hs' as <- <-.
  pose proof (next_head_step _ _ _ Hnh) as [Hnx Hny].
  assert (hits_wall w h nh = true <-> facing_wall w h hd (committed g))
    as Hborder.
  { rewrite hits_wall_true. unfold in_grid, facing_wall.
    destruct (committed g); cbn [step_of fst snd] in Hnx, Hny; lia. }
  destruct Hkind as [Hwall -> _ | Hwall _ -> _ | f Hwall _ _ _ ->];
    cbn [snake gameOver set_gameOver set_dir].
  - split; [intros _; apply Hborder; exact Hwall | auto].
  - split.
    + intros [Hsame _]. exfalso. rewrite Hs in Hsame.
      rewrite pop_back_cons in Hsame. injection Hsame as Heq _.
      subst nh. destruct (committed g); cbn in Hnx, Hny; lia.
    + intros Hf. apply Hborder in Hf. congruence.
  - split.
    + intros [Hsame _]. exfalso.
      assert (length (nh :: snake g) = length (snake g)) as Hl
          by (rewrite Hsame; reflexivity).
      cbn [length] in Hl. lia.
    + intros Hf. apply Hborder in Hf. congruence.
Qed.

(** X8. Eating the last free cell hangs the game: when the new head is the
    food and the grown snake covers the whole grid, the tick is still
    inside the free-cell search after any number of turns. *)
Theorem last_cell_hangs (fuel : nat) (w h : Z) (g : Game) (n : nat)
    (hd : Pos) (rest : list Pos) :
  1 <= w <= INT_MAX -> 1 <= h <= INT_MAX ->
  rand_in_range rand_int ->
  gameOver g = false -> snake g = hd :: rest ->
  next_head hd (committed g) = Ok (food g) ->
  in_grid w h (food g) ->
  INT_MIN <= score g + 1 <= INT_MAX ->
  (forall c, in_grid w h c -> In c (food g :: snake g)) ->
  update rand_int fuel w h g n = OutOfFuel.
Proof.
  intros Hw Hh Hrange Hgo Hs Hnh Hin Hsc Hfull.
  apply hits_wall_false in Hin.
  rewrite (update_eat _ _ _ _ _ _ _ _ _ Hgo Hs Hnh Hin (pos_eq_refl _)).
  unfold int_add. apply in_int_true in Hsc. rewrite Hsc.
  rewrite (search_never_returns rand_int w h (food g :: snake g) n
             Hw Hh Hrange Hfull fuel).
  reflexivity.
Qed.

Lemma update_keeps_pending (fuel : nat) (w h : Z) (g : Game) (n : nat)
    (g' : Game) (n' : nat) :
  update rand_int fuel w h g n = Ok (g', n') ->
  pending g' = pending g /\
  (is_opposite (dir g) (pending g) = true -> dir g' = dir g).
Proof.
  intros Hup. destruct (gameOver g) eqn:Hgo.
  - rewrite update_over in Hup by assumption. injection Hup as <- <-. auto.
  - destruct (update_running _ _ _ _ _ _ _ _ Hgo Hup)
      as (hd & rest & nh & _ & _ & Hkind).
    assert (pending g' = pending g /\ dir g' = committed g) as [Hp Hd]
        by (destruct Hkind; subst g'; auto).
    split; [exact Hp|]. intros Hopp. rewrite Hd. unfold committed.
    rewrite Hopp. reflexivity.
Qed.

(** X9. A tick never changes the pending direction, so a refused reverse
    turn stays pending: through any number of iterations without a key the
    pending direction and the direction of travel stay as they were. *)
Theorem refused_turn_stays_pending (win32 : bool) (fuel : nat) (w h : Z)
    (k : nat) (g : Game) (n : nat) (g' : Game) (n' : nat) :
  is_opposite (dir g) (pending g) = true ->
  run rand_int win32 fuel w h (repeat None k) g n = Ok (Continue g', n') ->
  pending g' = pending g /\ dir g' = dir g.
Proof.
  revert g n. induction k as [|k IH]; intros g n Hopp Hrun.
  - injection Hrun as <- <-. auto.
  - cbn [repeat run] in Hrun. unfold iteration, bind, ret at 1 in Hrun.
    destruct (update rand_int fuel w h g n) as [[g1 m]| |] eqn:Hup;
      try discriminate.
    unfold ret at 1 in Hrun.
    destruct (update_keeps_pending _ _ _ _ _ _ _ Hup) as [Hp Hd].
    specialize (Hd Hopp).
    assert (is_opposite (dir g1) (pending g1) = true) as Hopp1
        by (rewrite Hp, Hd; exact Hopp).
    destruct (IH g1 m Hopp1 Hrun) as [Hp' Hd'].
    split; congruence.
Qed.

End RunProperties.

(** ** Moves and keys *)

(** X14. For a position of [int] coordinates, a move in direction [b]
    right after a move in direction [a] leads back to the start exactly
    when [is_opposite a b]. *)
Theorem opposite_move_undoes (p q : Pos) (a b : Dir) :
  INT_MIN <= x p <= INT_MAX -> INT_MIN <= y p <= INT_MAX ->
  next_head p a = Ok q ->
  (next_head q b = Ok p <-> is_opposite a b = true).
Proof.
  intros Hx Hy Hq. pose proof (next_head_step _ _ _ Hq) as [Hqx Hqy].
  split.
  - intros Hp. apply next_head_step in Hp. destruct Hp as [Hpx Hpy].
    destruct a, b; cbn [step_of fst snd] in *; try reflexivity; lia.
  - intros Hopp. destruct p as [px py]. cbn [x y] in *.
    destruct a, b; try discriminate Hopp;
      cbn [step_of fst snd] in Hqx, Hqy;
      unfold next_head, int_add, int_sub; rewrite Hqx, Hqy.
    + replace (py + -1 + 1) with py by lia.
      apply in_int_true in Hy. rewrite Hy. do 2 f_equal; lia.
    + replace (py + 1 - 1) with py by lia.
      apply in_int_true in Hy. rewrite Hy. do 2 f_equal; lia.
    + replace (px + -1 + 1) with px by lia.
      apply in_int_true in Hx. rewrite Hx. do 2 f_equal; lia.
    + replace (px + 1 - 1) with px by lia.
      apply in_int_true in Hx. rewrite Hx. do 2 f_equal; lia.
Qed.

Section Keys.

Variable rand_int : nat -> Z -> Z -> Z.

(** X10. While the game is running the restart key does nothing: the state
    and the generator are as before. *)
Theorem restart_key_ignored_while_running (win32 : bool) (fuel : nat)
    (w h : Z) (k k2 : Z) (g : Game) (n : nat) :
  gameOver g = false -> is_restart k = true ->
  on_key rand_int win32 fuel w h k k2 g n = Ok (Continue g, n).
Proof.
  intros Hgo Hr. unfold is_restart in Hr. apply orb_true_iff in Hr.
  assert (k = 114 \/ k = 82) as [-> | ->]
      by (rewrite !Z.eqb_eq in Hr; exact Hr);
    unfold on_key; change (_ =? 224) with false; rewrite andb_false_r;
    cbv beta iota zeta delta [wasd is_quit is_restart Z.eqb Pos.eqb orb];
    rewrite Hgo; reflexivity.
Qed.

Lemma quit_iteration (win32 : bool) (fuel : nat) (w h : Z) (k k2 : Z)
    (g : Game) (n : nat) :
  is_quit k = true ->
  iteration rand_int win32 fuel w h (Some (k, k2)) g n = Ok (Break, n).
Proof.
  intros Hq. unfold iteration, on_key, bind. rewrite Hq. reflexivity.
Qed.

(** X11. A quit key ends the loop in its own iteration, before the tick and
    in any state, and whatever input follows it is never handled. *)
Theorem quit_ends_the_loop (win32 : bool) (fuel : nat) (w h : Z)
    (k k2 : Z) :
  is_quit k = true ->
  (forall g n,
      iteration rand_int win32 fuel w h (Some (k, k2)) g n = Ok (Break, n)) /\
  (forall before after g n,
      run rand_int win32 fuel w h (before ++ Some (k, k2) :: after) g n =
      run rand_int win32 fuel w h (before ++ [Some (k, k2)]) g n) /\
  (forall before after g n g' n',
      run rand_int win32 fuel w h (before ++ Some (k, k2) :: after) g n <>
      Ok (Continue g', n')).
Proof.
  intros Hq.
  assert (forall before after g n,
      run rand_int win32 fuel w h (before ++ Some (k, k2) :: after) g n =
      run rand_int win32 fuel w h (before ++ [Some (k, k2)]) g n) as Hcut.
  { induction before as [|inp before IH]; intros after g n.
    - cbn [app run]. unfold bind. rewrite quit_iteration by assumption.
      reflexivity.
    - cbn [app run]. unfold bind.
      destruct (iteration rand_int win32 fuel w h inp g n)
        as [[[g1|] m]| |]; try reflexivity.
      apply IH. }
  split; [|split].
  - intros. apply quit_iteration. assumption.
  - exact Hcut.
  - intros before after g n g' n'. rewrite Hcut. revert g n.
    induction before as [|inp before IH]; intros g n.
    + cbn [app run]. unfold bind. rewrite quit_iteration by assumption.
      discriminate.
    + cbn [app run]. unfold bind.
      destruct (iteration rand_int win32 fuel w h inp g n)
        as [[[g1|] m]| |]; try discriminate.
      apply IH.
Qed.

Lemma wasd_unrecognized (k : Z) (g : Game) :
  recognized k = false -> wasd k g = g /\ is_quit k = false /\
                          is_restart k = false.
Proof.
  unfold recognized. cbn [existsb]. rewrite !orb_false_iff.
  intros (Hw & HW & Hs & HS & Ha & HA & Hd & HD & Hq & HQ & Hr & HR & _).
  unfold wasd, is_quit, is_restart.
  rewrite Hw, HW, Hs, HS, Ha, HA, Hd, HD, Hq, HQ, Hr, HR. auto.
Qed.

Lemma on_key_unrecognized (win32 : bool) (fuel : nat) (w h : Z)
    (k k2 : Z) (g : Game) (n : nat) :
  recognized k = false ->
  (win32 && (k =? 224) = true ->
   existsb (Z.eqb k2) [72; 80; 75; 77] = false) ->
  on_key rand_int win32 fuel w h k k2 g n = Ok (Continue g, n).
Proof.
  intros Hk Harrow. unfold on_key.
  assert ((if win32 && (k =? 224) then arrow k2 g else g) = g) as ->.
  { destruct (win32 && (k =? 224)); [|reflexivity].
    specialize (Harrow eq_refl). cbn [existsb] in Harrow.
    rewrite !orb_false_iff in Harrow.
    destruct Harrow as (H72 & H80 & H75 & H77 & _).
    unfold arrow. rewrite H72, H80, H75, H77. reflexivity. }
  destruct (wasd_unrecognized k g Hk) as (-> & -> & ->).
  rewrite andb_false_r. reflexivity.
Qed.

(** X12. A key code outside the table of the input handling changes
    nothing; on the Windows build this includes the prefix [224] followed
    by a code that is no arrow. *)
Theorem unrecognized_key_is_ignored (win32 : bool) (fuel : nat) (w h : Z)
    (k k2 : Z) (g : Game) (n : nat) :
  recognized k = false ->
  (win32 && (k =? 224) = true ->
   existsb (Z.eqb k2) [72; 80; 75; 77] = false) ->
  on_key rand_int win32 fuel w h k k2 g n = Ok (Continue g, n).
Proof. apply on_key_unrecognized. Qed.

(** X13. On the POSIX build [key_hit] consumes the byte it finds: of two
    pending bytes the second is the key that is handled, and a single
    pending byte, whatever it is, is lost; the iteration then runs as if no
    key had been pressed. *)
Theorem lone_byte_is_dropped :
  (forall b1 b2 rest, poll (b1 :: b2 :: rest) = (Some (b2, 0), rest)) /\
  (forall b fuel w h g n,
      snd (poll [b]) = [] /\
      iteration rand_int false fuel w h (fst (poll [b])) g n =
      iteration rand_int false fuel w h None g n).
Proof.
  split; [reflexivity|].
  intros b fuel w h g n. split; [reflexivity|].
  cbn [poll key_hit get_key read_byte fst]. unfold iteration.
  unfold bind at 1. rewrite on_key_unrecognized by (reflexivity || discriminate).
  reflexivity.
Qed.

End Keys.

(** ** The frame *)

Lemma collect_map_ok {A B} (f : A -> result B) (g : A -> B) (l : list A) :
  (forall a, f a = Ok (g a)) -> collect (map f l) = Ok (map g l).
Proof.
  intros Hf. induction l as [|a l IH]; [reflexivity|].
  cbn [map collect]. rewrite Hf, IH. reflexivity.
Qed.

Lemma no_newline_app (s t : list Ascii.ascii) :
  no_newline (s ++ t) = no_newline s && no_newline t.
Proof. apply forallb_app. Qed.

Lemma split_lines_line (l rest : list Ascii.ascii) :
  no_newline l = true ->
  split_lines (l ++ newline :: rest) = l :: split_lines rest.
Proof.
  induction l as [|c l IH]; intros Hl.
  - reflexivity.
  - cbn [no_newline forallb] in Hl. apply andb_true_iff in Hl.
    destruct Hl as [Hc Hl]. apply negb_true_iff in Hc.
    cbn [app split_lines]. rewrite Hc, (IH Hl). reflexivity.
Qed.

Lemma split_lines_rows (rows : list (list Ascii.ascii))
    (rest : list Ascii.ascii) :
  forallb no_newline rows = true ->
  split_lines (concat (map (fun r => r ++ [newline]) rows) ++ rest) =
  rows ++ split_lines rest.
Proof.
  induction rows as [|r rows IH]; intros Hrows; [reflexivity|].
  cbn [forallb] in Hrows. apply andb_true_iff in Hrows.
  destruct Hrows as [Hr Hrows].
  cbn [map concat]. rewrite <- !app_assoc. cbn [app].
  rewrite split_lines_line by assumption. rewrite (IH Hrows). reflexivity.
Qed.

Lemma cell_char_cases (hd : Pos) (s : list Pos) (f p : Pos) :
  In (cell_char hd s f p) ["O"%char; "*"%char; "o"%char; " "%char].
Proof.
  unfold cell_char.
  destruct (pos_eq p hd); [cbn; auto|].
  destruct (pos_eq p f); [cbn; auto|].
  destruct (self_hit s p); cbn; auto.
Qed.

Lemma row_text_no_newline (w : Z) (hd : Pos) (s : list Pos) (f : Pos)
    (py : Z) :
  no_newline (row_text w hd s f py) = true.
Proof.
  unfold row_text, no_newline. cbn [forallb].
  rewrite forallb_app. cbn [forallb andb negb Ascii.eqb Bool.eqb].
  rewrite andb_true_r. apply forallb_forall.
  intros c Hc. apply in_map_iff in Hc. destruct Hc as (px & <- & _).
  pose proof (cell_char_cases hd s f (mkPos px py)) as Hcases.
  cbn [In] in Hcases.
  destruct Hcases as [<- | [<- | [<- | [<- | []]]]]; reflexivity.
Qed.

Lemma border_text_no_newline (w : Z) : no_newline (border_text w) = true.
Proof.
  unfold border_text, no_newline. cbn [forallb].
  rewrite forallb_app. cbn [forallb andb negb Ascii.eqb Bool.eqb].
  rewrite andb_true_r. apply forallb_forall.
  intros c Hc. apply repeat_spec in Hc. subst c. reflexivity.
Qed.

Lemma digits_no_newline (d : Decimal.uint) :
  no_newline (text (DecimalString.NilEmpty.string_of_uint d)) = true.
Proof. induction d; cbn; auto. Qed.

Lemma show_uint_no_newline (d : Decimal.uint) :
  no_newline (text (DecimalString.NilZero.string_of_uint d)) = true.
Proof.
  destruct d; try reflexivity;
    match goal with
    | |- no_newline (text (DecimalString.NilZero.string_of_uint ?u)) = true =>
        exact (digits_no_newline u)
    end.
Qed.

Lemma show_int_no_newline (z : Z) : no_newline (show_int z) = true.
Proof.
  unfold show_int, DecimalString.NilZero.string_of_int.
  destruct (Z.to_int z) as [d | d].
  - apply show_uint_no_newline.
  - change (no_newline
              (text (DecimalString.NilZero.string_of_uint d)) = true).
    apply show_uint_no_newline.
Qed.

Lemma draw_row_ok (w : Z) (hd : Pos) (rest : list Pos) (f : Pos) (py : Z) :
  draw_row w (hd :: rest) f py =
  Ok (row_text w hd (hd :: rest) f py ++ [newline]).
Proof.
  unfold draw_row, row_text.
  rewrite (collect_map_ok _
             (fun px => cell_char hd (hd :: rest) f (mkPos px py)))
    by reflexivity.
  cbn [rbind app]. rewrite <- app_assoc. reflexivity.
Qed.

Lemma draw_ok (w h : Z) (hd : Pos) (rest : list Pos) (f : Pos) (sc : Z)
    (go : bool) :
  draw w h (hd :: rest) f sc go =
  Ok (set_cursor_home ++ border_text w ++ newline ::
      concat (map (fun r => r ++ [newline])
                  (map (row_text w hd (hd :: rest) f) (zrange h))) ++
      border_text w ++ newline :: status_text sc go ++ [newline]).
Proof.
  unfold draw. rewrite map_map.
  rewrite <- (map_map (row_text w hd (hd :: rest) f)
                      (fun r => r ++ [newline])).
  rewrite (collect_map_ok _
             (fun py => row_text w hd (hd :: rest) f py ++ [newline]))
    by (intros; apply draw_row_ok).
  cbn [rbind]. rewrite map_map.
  assert (border w = border_text w ++ [newline]) as ->.
  { unfold border, border_text. cbn [app]. rewrite <- app_assoc.
    reflexivity. }
  assert (status sc go = status_text sc go ++ [newline]) as ->.
  { unfold status, status_text. rewrite <- !app_assoc. reflexivity. }
  rewrite <- !app_assoc. reflexivity.
Qed.

Lemma status_text_no_newline (sc : Z) (go : bool) :
  no_newline (status_text sc go) = true.
Proof.
  unfold status_text. rewrite !no_newline_app, show_int_no_newline.
  destruct go; reflexivity.
Qed.

Lemma draw_lines (w h : Z) (hd : Pos) (rest : list Pos) (f : Pos) (sc : Z)
    (go : bool) (out : list Ascii.ascii) :
  draw w h (hd :: rest) f sc go = Ok out ->
  split_lines out =
  (set_cursor_home ++ border_text w) ::
  map (row_text w hd (hd :: rest) f) (zrange h) ++
  [border_text w; status_text sc go; []].
Proof.
  rewrite draw_ok. intros Hout.
  apply (f_equal (fun r => match r with Ok a => a | _ => [] end)) in Hout.
  cbv beta iota in Hout. subst out.
  rewrite app_assoc.
  rewrite split_lines_line
    by (rewrite no_newline_app, border_text_no_newline; reflexivity).
  f_equal. rewrite split_lines_rows.
  - f_equal. rewrite !split_lines_line;
      auto using border_text_no_newline, status_text_no_newline.
  - apply forallb_forall. intros r Hr. apply in_map_iff in Hr.
    destruct Hr as (py & <- & _). apply row_text_no_newline.
Qed.

Lemma nth_zrange_map {A} (f : Z -> A) (n i : Z) (d : A) :
  0 <= i < n -> nth (Z.to_nat i) (map f (zrange n)) d = f i.
Proof.
  intros Hi. unfold zrange. rewrite map_map.
  rewrite (nth_indep _ d (f (Z.of_nat 0)))
    by (rewrite length_map, length_seq; lia).
  rewrite (map_nth (fun j => f (Z.of_nat j)) (seq 0 (Z.to_nat n)) 0%nat).
  rewrite seq_nth by lia. cbn [Nat.add]. rewrite Z2Nat.id by lia.
  reflexivity.
Qed.

Lemma zrange_length (n : Z) : length (zrange n) = Z.to_nat n.
Proof. unfold zrange. rewrite length_map, length_seq. reflexivity. Qed.

(** The character of a cell of the grid in the frame. *)
Lemma frame_char_cell (w h : Z) (hd : Pos) (rest : list Pos) (f : Pos)
    (sc : Z) (go : bool) (out : list Ascii.ascii) (cx cy : Z) :
  draw w h (hd :: rest) f sc go = Ok out ->
  0 <= cx < w -> 0 <= cy < h ->
  frame_char out cx cy = cell_char hd (hd :: rest) f (mkPos cx cy).
Proof.
  intros Hdraw Hx Hy. unfold frame_char.
  rewrite (draw_lines _ _ _ _ _ _ _ _ Hdraw). cbn [nth].
  rewrite app_nth1 by (rewrite length_map, zrange_length; lia).
  rewrite nth_zrange_map by assumption.
  unfold row_text. cbn [nth].
  rewrite app_nth1 by (rewrite length_map, zrange_length; lia).
  apply (nth_zrange_map
           (fun px => cell_char hd (hd :: rest) f (mkPos px cy))).
  assumption.
Qed.

Section Frame.

Variable rand_int : nat -> Z -> Z -> Z.

(** X15. For a snake with at least one cell [draw] returns a frame of these
    lines: the top border behind the cursor-home sequence, one row per grid
    line, each of [w + 2] characters between two bars, the bottom border,
    the status line, and nothing after the last newline. *)
Theorem draw_frame_layout (w h : Z) (s : list Pos) (f : Pos) (sc : Z)
    (go : bool) :
  s <> [] ->
  exists hd out,
    front s = Ok hd /\
    draw w h s f sc go = Ok out /\
    split_lines out =
    (set_cursor_home ++ border_text w) ::
    map (row_text w hd s f) (zrange h) ++
    [border_text w; status_text sc go; []] /\
    length (split_lines out) = (Z.to_nat h + 4)%nat /\
    forall py, length (row_text w hd s f py) = (Z.to_nat w + 2)%nat.
Proof.
  intros Hs. destruct s as [|hd rest]; [congruence|].
  exists hd. eexists. split; [reflexivity|].
  split; [apply draw_ok|].
  pose proof (draw_lines w h hd rest f sc go _ (draw_ok _ _ _ _ _ _ _))
    as Hlines.
  split; [exact Hlines|]. split.
  - rewrite Hlines. cbn [length]. rewrite length_app, length_map,
      zrange_length. cbn [length]. lia.
  - intros py. unfold row_text. cbn [length].
    rewrite length_app, length_map, zrange_length. cbn [length]. lia.
Qed.

(** X16. For an empty snake [draw] is undefined exactly when the grid has a
    cell: only then is [front] taken. *)
Theorem draw_empty_snake (w h : Z) (f : Pos) (sc : Z) (go : bool) :
  draw w h [] f sc go = Undefined <-> 0 < w /\ 0 < h.
Proof.
  unfold draw.
  assert (forall py, draw_row w [] f py = Undefined <-> 0 < w) as Hrow.
  { intros py. unfold draw_row, zrange.
    destruct (Z.to_nat w) as [|k] eqn:Hk.
    - cbn. split; [discriminate | lia].
    - cbn. split; [lia | reflexivity]. }
  unfold zrange. destruct (Z.to_nat h) as [|k] eqn:Hk.
  - cbn. split; [discriminate | lia].
  - cbn [seq map collect].
    destruct (Z_lt_le_dec 0 w) as [Hw | Hw].
    + rewrite (proj2 (Hrow _) Hw). cbn. split; [lia | reflexivity].
    + assert (forall py, draw_row w [] f py =
                         Ok ["|"%char; "|"%char; newline]) as Hempty.
      { intros py. unfold draw_row, zrange.
        replace (Z.to_nat w) with 0%nat by lia. reflexivity. }
      rewrite Hempty. cbn [rbind]. rewrite <- seq_shift, !map_map.
      rewrite (collect_map_ok _ (fun _ => ["|"%char; "|"%char; newline]))
        by (intros; apply Hempty).
      cbn. split; [discriminate | lia].
Qed.

(** X17. In every state of a run the frame shows the state without
    overlap: a grid cell shows [O] exactly when it is the head, [*]
    exactly when it is the food, [o] exactly when it is a snake cell other
    than the head, and a blank exactly when it is neither on the snake nor
    the food. *)
Theorem frame_shows_state (w h : Z) (g : Game) (n : nat)
    (out : list Ascii.ascii) (cx cy : Z) :
  reachable rand_int w h g n ->
  draw w h (snake g) (food g) (score g) (gameOver g) = Ok out ->
  0 <= cx < w -> 0 <= cy < h ->
  (frame_char out cx cy = "O"%char <-> front (snake g) = Ok (mkPos cx cy)) /\
  (frame_char out cx cy = "*"%char <-> mkPos cx cy = food g) /\
  (frame_char out cx cy = "o"%char <->
   In (mkPos cx cy) (snake g) /\ front (snake g) <> Ok (mkPos cx cy)) /\
  (frame_char out cx cy = " "%char <->
   ~ In (mkPos cx cy) (snake g) /\ mkPos cx cy <> food g).
Proof.
  intros Hreach Hdraw Hx Hy.
  pose proof (reachable_two_cells _ _ _ _ _ Hreach) as H2.
  pose proof (reachable_food_free _ _ _ _ _ Hreach) as Hfree.
  apply contains_false_iff in Hfree.
  destruct (snake g) as [|hd rest] eqn:Hs; [cbn in H2; lia|].
  rewrite (frame_char_cell _ _ _ _ _ _ _ _ _ _ Hdraw Hx Hy).
  set (p := mkPos cx cy). unfold cell_char. rewrite self_hit_cons.
  cbn [front]. 
  destruct (pos_eq p hd) eqn:Ehd.
  - apply pos_eq_true_iff in Ehd.
    assert (p <> food g) by (intros E; apply Hfree; left; congruence).
    repeat split; try discriminate; try tauto; try congruence.
    + intros [_ Hne]. congruence.
    + intros [Hnot _]. exfalso. apply Hnot. left. congruence.
  - apply pos_eq_false_iff in Ehd.
    assert (Ok hd <> Ok p) by congruence.
    destruct (pos_eq p (food g)) eqn:Efd.
    + apply pos_eq_true_iff in Efd.
      assert (~ In p (hd :: rest)) by (rewrite Efd; exact Hfree).
      repeat split; try discriminate; try tauto; try congruence.
    + apply pos_eq_false_iff in Efd.
      destruct (contains rest p) eqn:Ebody.
      * apply contains_true_iff in Ebody.
        repeat split; try discriminate; try tauto; try congruence.
        -- right; assumption.
        -- intros [Hnot _]. exfalso. apply Hnot. right. assumption.
      * apply contains_false_iff in Ebody.
        repeat split; try discriminate; try tauto; try congruence.
        -- intros [[E | Hin] _]; [congruence | contradiction].
        -- intros [E | Hin]; [congruence | contradiction].
Qed.

End Frame.

(** ** Closed examples for the further properties *)

Lemma reachable_iteration (rand_int : nat -> Z -> Z -> Z) (win32 : bool)
    (fuel : nat) (w h : Z) (inp : option (Z * Z)) (g : Game) (n : nat)
    (g' : Game) (n' : nat) :
  reachable rand_int w h g n ->
  iteration rand_int win32 fuel w h inp g n = Ok (Continue g', n') ->
  reachable rand_int w h g' n'.
Proof.
  intros Hreach Hit. unfold iteration in Hit.
  apply bind_ok in Hit. destruct Hit as (st & m & Hkey & Hit).
  destruct st as [g1|]; [|discriminate].
  apply bind_ok in Hit. destruct Hit as (g2 & m2 & Hup & Hret).
  apply ret_ok in Hret. destruct Hret as [[= ->] ->].
  apply (reach_update _ _ _ fuel g1 m); [|exact Hup].
  destruct inp as [[k k2]|].
  - eapply reach_key; eauto.
  - apply ret_ok in Hkey. destruct Hkey as [[= ->] ->]. exact Hreach.
Qed.

Lemma reachable_run (rand_int : nat -> Z -> Z -> Z) (win32 : bool)
    (fuel : nat) (w h : Z) (inps : list (option (Z * Z))) :
  forall g n g' n',
    reachable rand_int w h g n ->
    run rand_int win32 fuel w h inps g n = Ok (Continue g', n') ->
    reachable rand_int w h g' n'.
Proof.
  induction inps as [|inp inps IH]; intros g n g' n' Hreach Hrun.
  - apply ret_ok in Hrun. destruct Hrun as [[= ->] ->]. exact Hreach.
  - cbn [run] in Hrun. apply bind_ok in Hrun.
    destruct Hrun as (st & m & Hit & Hrun).
    destruct st as [g1|]; [|discriminate].
    eapply IH; [|exact Hrun]. eapply reachable_iteration; eauto.
Qed.

Lemma moved_state_reachable :
  reachable (scan_rand 30) W H moved_state 2%nat.
Proof.
  apply (reach_update (scan_rand 30) W H 0%nat start_state 2%nat).
  - exact start_state_reachable.
  - reflexivity.
Qed.

Lemma back_state_reachable : reachable (scan_rand 30) W H back_state 2%nat.
Proof.
  apply (reach_key (scan_rand 30) W H false 0%nat 97 0 start_state 2%nat).
  - exact start_state_reachable.
  - reflexivity.
Qed.

(** Fourteen iterations without a key take the head to the right wall. *)
Lemma wall_state_reachable : reachable (scan_rand 30) W H wall_state 2%nat.
Proof.
  apply (reachable_run (scan_rand 30) false 0%nat W H (repeat None 14)
           start_state 2%nat).
  - exact start_state_reachable.
  - vm_compute. reflexivity.
Qed.

Lemma snake_is_a_path_witness : chain (snake wall_state).
Proof.
  apply (snake_is_a_path (scan_rand 30) W H wall_state 2%nat).
  exact wall_state_reachable.
Defined.

Lemma running_snake_has_distinct_cells_witness : NoDup (snake moved_state).
Proof.
  apply (running_snake_has_distinct_cells (scan_rand 30) W H moved_state
           2%nat).
  - exact moved_state_reachable.
  - reflexivity.
Defined.

Lemma snake_and_food_stay_in_grid_witness :
  Forall (in_grid W H) (snake wall_state) /\ in_grid W H (food wall_state).
Proof.
  apply (snake_and_food_stay_in_grid (scan_rand 30) W H wall_state 2%nat).
  - unfold W. lia.
  - exact (scan_rand_in_range 30).
  - exact wall_state_reachable.
Defined.

Lemma score_counts_growth_witness :
  score moved_state = Z.of_nat (length (snake moved_state)) - 2 /\
  0 <= score moved_state <= Z.of_nat (cells W H) - 2.
Proof.
  apply (score_counts_growth (scan_rand 30) W H moved_state 2%nat).
  - unfold W. lia.
  - exact moved_state_reachable.
Defined.

Lemma play_is_defined_witness :
  iteration (scan_rand 30) false 1 W H (Some (119, 0)) wall_state 2%nat
  <> Undefined.
Proof.
  apply (play_is_defined (scan_rand 30) false 1%nat W H (Some (119, 0))
           wall_state 2%nat).
  - unfold W. lia.
  - unfold W, H, INT_MAX. lia.
  - exact wall_state_reachable.
Defined.

Lemma no_turn_into_neck_witness : cell 16 10 <> cell 14 10.
Proof.
  apply (no_turn_into_neck (scan_rand 30) W H back_state 2%nat
           (cell 15 10) (cell 14 10) (cell 16 10) []).
  - exact back_state_reachable.
  - reflexivity.
  - reflexivity.
  - reflexivity.
Defined.

Lemma wall_hit_on_border_witness :
  (snake over_state = snake wall_state /\ gameOver over_state = true) <->
  facing_wall W H (cell 29 10) (committed wall_state).
Proof.
  apply (wall_hit_on_border (scan_rand 30) 0%nat W H wall_state 2%nat
           (cell 29 10) [cell 28 10] over_state 2%nat).
  - unfold W. lia.
  - exact wall_state_reachable.
  - reflexivity.
  - reflexivity.
  - reflexivity.
Defined.

(** On three cells in a row the first tick eats the last free cell. *)
Lemma last_cell_hangs_witness :
  update low_rand 5 3 1 last_cell_state 0%nat = OutOfFuel.
Proof.
  apply (last_cell_hangs low_rand 5%nat 3 1 last_cell_state 0%nat
           (cell 1 0) [cell 0 0]).
  - unfold INT_MAX. lia.
  - unfold INT_MAX. lia.
  - exact low_rand_in_range.
  - reflexivity.
  - reflexivity.
  - reflexivity.
  - unfold in_grid; cbn. lia.
  - unfold INT_MIN, INT_MAX; cbn. lia.
  - intros c Hc. apply (grid_cells_complete 3 1) in Hc.
    cbn in Hc. cbn. tauto.
Defined.

Lemma refused_turn_stays_pending_witness :
  pending backed_state = pending back_state /\
  dir backed_state = dir back_state.
Proof.
  apply (refused_turn_stays_pending low_rand false 0%nat W H 1%nat
           back_state 0%nat backed_state 0%nat); reflexivity.
Defined.

Lemma restart_key_ignored_while_running_witness :
  on_key low_rand true 0 W H 114 0 start_state 0%nat
  = Ok (Continue start_state, 0%nat).
Proof.
  apply (restart_key_ignored_while_running low_rand true 0%nat W H 114 0
           start_state 0%nat); reflexivity.
Defined.

Lemma quit_ends_the_loop_witness :
  run low_rand false 0 W H [None; Some (113, 0); Some (119, 0)]
      start_state 0%nat =
  run low_rand false 0 W H [None; Some (113, 0)] start_state 0%nat.
Proof.
  apply (proj1 (proj2 (quit_ends_the_loop low_rand false 0%nat W H 113 0
                         eq_refl))
               [None] [Some (119, 0)]).
Defined.

Lemma unrecognized_key_is_ignored_witness :
  on_key low_rand true 0 W H 224 13 turn_state 0%nat
  = Ok (Continue turn_state, 0%nat).
Proof.
  apply (unrecognized_key_is_ignored low_rand true 0%nat W H 224 13
           turn_state 0%nat); reflexivity.
Defined.

Lemma opposite_move_undoes_witness :
  next_head (cell 16 10) Left = Ok (cell 15 10) <->
  is_opposite Right Left = true.
Proof.
  apply (opposite_move_undoes (cell 15 10) (cell 16 10) Right Left).
  - unfold INT_MIN, INT_MAX; cbn. lia.
  - unfold INT_MIN, INT_MAX; cbn. lia.
  - reflexivity.
Defined.

Lemma draw_frame_layout_witness :
  exists hd out,
    front (snake start_state) = Ok hd /\
    draw W H (snake start_state) (food start_state) 0 false = Ok out /\
    split_lines out =
    (set_cursor_home ++ border_text W) ::
    map (row_text W hd (snake start_state) (food start_state)) (zrange H) ++
    [border_text W; status_text 0 false; []] /\
    length (split_lines out) = (Z.to_nat H + 4)%nat /\
    forall py,
      length (row_text W hd (snake start_state) (food start_state) py)
      = (Z.to_nat W + 2)%nat.
Proof.
  apply (draw_frame_layout W H (snake start_state) (food start_state) 0
           false).
  discriminate.
Defined.

Lemma start_frame_drawn :
  draw W H (snake start_state) (food start_state) (score start_state)
       (gameOver start_state) = Ok start_frame.
Proof. vm_compute. reflexivity. Qed.

(** In the frame of [start_state] the food shows at the origin. *)
Lemma frame_shows_state_witness :
  frame_char start_frame 0 0 = "*"%char <-> cell 0 0 = food start_state.
Proof.
  apply (frame_shows_state (scan_rand 30) W H start_state 2%nat start_frame
           0 0).
  - exact start_state_reachable.
  - exact start_frame_drawn.
  - unfold W. lia.
  - unfold H. lia.
Defined.

(** X20. Whatever the generator does, a cell returned by the free-cell
    search is the first drawn cell that is off the snake: every cell drawn
    before it is on the snake, the search has made two generator calls per
    drawn cell, and the cell lies in the grid when the distributions keep
    to their bounds. *)
Theorem search_result (rand_int : nat -> Z -> Z -> Z) (fuel : nat)
    (w h : Z) (s : list Pos) (n : nat) (p : Pos) (n' : nat) :
  random_empty_cell rand_int fuel w h s n = Ok (p, n') ->
  exists k,
    (k < fuel)%nat /\ p = drawn rand_int w h n k /\
    n' = (n + 2 * (k + 1))%nat /\ ~ In p s /\
    (forall j, (j < k)%nat -> In (drawn rand_int w h n j) s) /\
    (rand_in_range rand_int -> in_grid w h p).
Proof.
  intros Hrun.
  pose proof (random_empty_cell_ok _ _ _ _ _ _ _ _ Hrun) as (Hloop & Hw & Hh).
  apply sample_loop_sound in Hloop.
  destruct Hloop as (k & Hk & Hp & Hn & Hfree & Hbefore).
  exists k. split; [exact Hk|]. split; [exact Hp|]. split; [lia|].
  split; [apply contains_false_iff; exact Hfree|]. split.
  - intros j Hj. apply contains_true_iff. apply Hbefore. exact Hj.
  - intros Hrange. eapply random_empty_cell_in_grid; eauto.
Qed.

Lemma search_result_witness :
  exists k,
    (k < 5)%nat /\ cell 2 0 = drawn (scan_rand 30) W H 0 k /\
    6%nat = (0 + 2 * (k + 1))%nat /\
    ~ In (cell 2 0) [cell 0 0; cell 1 0] /\
    (forall j, (j < k)%nat ->
               In (drawn (scan_rand 30) W H 0 j) [cell 0 0; cell 1 0]) /\
    (rand_in_range (scan_rand 30) -> in_grid W H (cell 2 0)).
Proof.
  apply (search_result (scan_rand 30) 5%nat W H [cell 0 0; cell 1 0] 0%nat
           (cell 2 0) 6%nat).
  reflexivity.
Defined.

Lemma update_returns_witness :
  exists fuel0, forall fuel, (fuel0 <= fuel)%nat ->
    exists g' n', update (scan_rand 30) fuel W H feed_state 0%nat
                  = Ok (g', n').
Proof.
  apply (update_returns (scan_rand 30) W H feed_state 0%nat (cell 15 10)
           [cell 14 10]).
  - exact W_is_count.
  - exact H_is_count.
  - reflexivity.
  - unfold in_grid, W, H; cbn. lia.
  - unfold INT_MIN, INT_MAX; cbn. lia.
  - exact (scan_rand_draws_every_cell 30 20).
  - exists (cell 0 0). split; [unfold in_grid, W, H; cbn; lia|].
    split; [discriminate|]. intros [E | [E | []]]; discriminate E.
Defined.

Lemma reset_game_returns_witness :
  exists fuel0, forall fuel, (fuel0 <= fuel)%nat ->
    exists g' n', reset_game (scan_rand 30) fuel W H main_init 0%nat
                  = Ok (g', n').
Proof.
  apply (reset_game_returns (scan_rand 30) W H main_init 0%nat).
  - exact W_is_count.
  - exact H_is_count.
  - exact (scan_rand_draws_every_cell 30 20).
  - exists (cell 0 0). split; [unfold in_grid, W, H; cbn; lia|].
    intros [E | [E | []]]; discriminate E.
Defined.
